(** * my-llm: the document ingestion and retrieval core

    A shallow embedding of [src/document_processor.py] (class
    [DocumentProcessor]) and the properties its specification states about
    chunking, ingestion, retrieval, statistics and reset.

    Conventions of the embedding.
    - A Python [str] is a [list ascii]: one [ascii] per character, the
      character set being the 256 code points U+0000..U+00FF.  On that
      repertoire [str.isspace], [str.lower], SQLite's [LOWER] and [LIKE]
      are modelled exactly (for [LOWER] and [LIKE]: on texts without
      U+0000, where SQLite stops reading).
    - A Python [int] is a [Z].
    - A loop that may run forever takes a [fuel : nat]; [None] means that
      the fuel ran out before the loop finished.
    - The SQLite file is a record of two tables (lists of rows, in insertion
      order) and the two AUTOINCREMENT counters; a connection carries the
      committed database and its own working copy.  Capacity limits of the
      engine (64-bit integers, the length limit of a LIKE pattern) are not
      part of the model, and neither is the never-read column
      [processed_date].
    - What the class gets from other libraries (MD5, the PDF and DOCX
      readers, the text decoders, the path functions, the vector index) is a
      [Variable] of the section that uses it. *)

From Stdlib Require Import ZArith List Ascii String Bool Lia PrimFloat.
From Stdlib Require Import DecimalString Sorted.
Import ListNotations.

Local Open Scope Z_scope.

(** ** Python strings *)

Module Py.

Definition str := list ascii.

Definition of_string (s : string) : str := list_ascii_of_string s.

Definition len {A} (s : list A) : Z := Z.of_nat (List.length s).

(** [PySlice_AdjustIndices] for a step of 1: a negative index counts from
    the end, and both ends are clamped to [0 .. len]. *)
Definition adjust_index (n i : Z) : Z :=
  if i <? 0 then Z.max 0 (i + n) else Z.min i n.

(** [s[start:stop]] *)
Definition slice {A} (s : list A) (start stop : Z) : list A :=
  let lo := adjust_index (len s) start in
  let hi := adjust_index (len s) stop in
  firstn (Z.to_nat (hi - lo)) (skipn (Z.to_nat lo) s).

(** Position of the last occurrence of [c] in [l], or -1. *)
Fixpoint rindex (c : ascii) (l : str) : Z :=
  match l with
  | [] => -1
  | x :: l' =>
      let r := rindex c l' in
      if 0 <=? r then r + 1
      else if Ascii.eqb x c then 0 else -1
  end.

(** [s.rfind(c, start, stop)] for a one-character [c]: the highest index
    in [s[start:stop]] (indices adjusted as for a slice) holding [c],
    or -1. *)
Definition rfind (s : str) (c : ascii) (start stop : Z) : Z :=
  let r := rindex c (slice s start stop) in
  if r <? 0 then -1 else adjust_index (len s) start + r.

(** [str.isspace] of one character, on U+0000..U+00FF: TAB..CR, FS..US,
    SPACE, NEL and NO-BREAK SPACE. *)
Definition isspace (c : ascii) : bool :=
  let n := Z.of_nat (nat_of_ascii c) in
  ((9 <=? n) && (n <=? 13)) || ((28 <=? n) && (n <=? 32))
  || (n =? 133) || (n =? 160).

Fixpoint lstrip (s : str) : str :=
  match s with
  | [] => []
  | x :: s' => if isspace x then lstrip s' else s
  end.

Definition rstrip (s : str) : str := rev (lstrip (rev s)).

(** [s.strip()] *)
Definition strip (s : str) : str := rstrip (lstrip s).

(** Truth value of a string: non-empty. *)
Definition truthy {A} (s : list A) : bool :=
  match s with [] => false | _ :: _ => true end.

End Py.

(** ** The chunker: [DocumentProcessor.chunk_text] *)

Module Chunker.
Import Py.

(** The variables of the [while] loop that live across iterations. *)
Record loop_state := mk_loop_state {
  start : Z;
  chunks : list str
}.

(** The value of [end] when the chunk is cut: the raw right edge
    [start + chunk_size], moved back to just after the last sentence
    terminator of the window when the edge is inside the text and that
    terminator lies strictly after [start]. *)
Definition window_end (text : str) (chunk_size start : Z) : Z :=
  let end_ := start + chunk_size in
  if end_ <? len text then
    let last_sentence :=
      Z.max (Z.max (rfind text "." start end_) (rfind text "!" start end_))
            (rfind text "?" start end_) in
    if last_sentence >? start then last_sentence + 1 else end_
  else end_.

(** One iteration of the loop body. *)
Definition loop_body (text : str) (chunk_size overlap : Z)
    (st : loop_state) : loop_state :=
  let end_ := window_end text chunk_size (start st) in
  let chunk := strip (slice text (start st) end_) in
  {| start := end_ - overlap;
     chunks := if truthy chunk then chunks st ++ [chunk] else chunks st |}.

(** [while start < len(text): ...], then [return chunks]. *)
Fixpoint while_loop (fuel : nat) (text : str) (chunk_size overlap : Z)
    (st : loop_state) : option (list str) :=
  match fuel with
  | O => None
  | S fuel' =>
      if start st <? len text
      then while_loop fuel' text chunk_size overlap
             (loop_body text chunk_size overlap st)
      else Some (chunks st)
  end.

Definition chunk_text (fuel : nat) (text : str) (chunk_size overlap : Z)
    : option (list str) :=
  if len text <=? chunk_size then Some [text]
  else while_loop fuel text chunk_size overlap {| start := 0; chunks := [] |}.

Definition default_chunk_size : Z := 1000.
Definition default_overlap : Z := 200.

(** The state after [n] iterations of the body. *)
Fixpoint iterate (n : nat) (text : str) (chunk_size overlap : Z)
    (st : loop_state) : loop_state :=
  match n with
  | O => st
  | S n' => iterate n' text chunk_size overlap
              (loop_body text chunk_size overlap st)
  end.

(** The windows [(start, end)] the loop cuts, in order, within [fuel]
    iterations. *)
Fixpoint windows (fuel : nat) (text : str) (chunk_size overlap : Z)
    (st : loop_state) : list (Z * Z) :=
  match fuel with
  | O => []
  | S fuel' =>
      if start st <? len text
      then (start st, window_end text chunk_size (start st))
           :: windows fuel' text chunk_size overlap
                (loop_body text chunk_size overlap st)
      else []
  end.

End Chunker.

(** ** More of Python: case, splitting, joining, dynamic values *)

Module PyText.
Import Py.

Definition code (c : ascii) : Z := Z.of_nat (nat_of_ascii c).

Definition shift32 (c : ascii) : ascii :=
  ascii_of_nat (nat_of_ascii c + 32).

(** "A".."Z" *)
Definition is_ascii_upper (c : ascii) : bool :=
  (65 <=? code c) && (code c <=? 90).

(** The upper-case letters of U+00C0..U+00DE (all but the sign U+00D7). *)
Definition is_latin1_upper (c : ascii) : bool :=
  (192 <=? code c) && (code c <=? 222) && negb (code c =? 215).

(** [str.lower] on U+0000..U+00FF. *)
Definition lower_char (c : ascii) : ascii :=
  if is_ascii_upper c || is_latin1_upper c then shift32 c else c.

Definition lower (s : str) : str := map lower_char s.

Fixpoint str_eqb (a b : str) : bool :=
  match a, b with
  | [], [] => true
  | x :: a', y :: b' => Ascii.eqb x y && str_eqb a' b'
  | _, _ => false
  end.

(** [s.split()]: the maximal runs of non-whitespace characters.  [cur] is
    the run being read, last character first. *)
Fixpoint split_from (cur : str) (s : str) : list str :=
  match s with
  | [] => if truthy cur then [rev cur] else []
  | c :: s' =>
      if isspace c
      then (if truthy cur then rev cur :: split_from [] s'
            else split_from [] s')
      else split_from (c :: cur) s'
  end.

Definition split (s : str) : list str := split_from [] s.

(** [sep.join(words)] *)
Fixpoint join (sep : str) (words : list str) : str :=
  match words with
  | [] => []
  | w :: rest =>
      match rest with
      | [] => w
      | _ :: _ => w ++ sep ++ join sep rest
      end
  end.

(** [str(n)] for an integer. *)
Definition str_of_int (n : Z) : str :=
  of_string (DecimalString.NilZero.string_of_int (Z.to_int n)).

(** Exceptions, as far as the code tells them apart (it does not: every
    handler is [except Exception]). *)
Inductive exn :=
| KeyError | IndexError | TypeError | AttributeError
| IntegrityError | LibraryError.

(** The outcome of an expression that may raise. *)
Inductive res (A : Type) :=
| Ok (a : A)
| Raise (e : exn).
Arguments Ok {A} a.
Arguments Raise {A} e.

Definition bind {A B} (x : res A) (f : A -> res B) : res B :=
  match x with
  | Ok a => f a
  | Raise e => Raise e
  end.

Declare Scope py_scope.
Delimit Scope py_scope with py.
Notation "x <- c ;; k" := (bind c (fun x => k))
  (at level 61, c at next level, right associativity) : py_scope.

(** The dynamically typed values that the vector index hands back. *)
#[warnings="-register-all"] Inductive pyval :=
| PNone
| PBool (b : bool)
| PInt (n : Z)
| PFloat (f : float)
| PStr (s : str)
| PList (l : list pyval)
| PDict (d : list (str * pyval)).

(** [bool(v)] *)
Definition truth (v : pyval) : bool :=
  match v with
  | PNone => false
  | PBool b => b
  | PInt n => negb (n =? 0)
  | PFloat f => negb (PrimFloat.eqb f 0%float)
  | PStr s => truthy s
  | PList l => truthy l
  | PDict d => truthy d
  end.

Fixpoint dict_lookup (d : list (str * pyval)) (k : str) : option pyval :=
  match d with
  | [] => None
  | (k', v) :: d' => if str_eqb k' k then Some v else dict_lookup d' k
  end.

(** [v[k]] for a string key [k] *)
Definition getitem_key (v : pyval) (k : str) : res pyval :=
  match v with
  | PDict d =>
      match dict_lookup d k with
      | Some x => Ok x
      | None => Raise KeyError
      end
  | _ => Raise TypeError
  end.

(** [l[i]] on a sequence of length [len l], negative [i] counting from
    the end. *)
Definition seq_index {A} (l : list A) (i : Z) : res A :=
  let j := if i <? 0 then i + len l else i in
  if (0 <=? j) && (j <? len l)
  then match nth_error l (Z.to_nat j) with
       | Some x => Ok x
       | None => Raise IndexError
       end
  else Raise IndexError.

(** [v[i]] for an integer [i] *)
Definition getitem_index (v : pyval) (i : Z) : res pyval :=
  match v with
  | PList l => seq_index l i
  | PStr s => bind (seq_index s i) (fun c => Ok (PStr [c]))
  | PDict _ => Raise KeyError
  | _ => Raise TypeError
  end.

(** The elements that [for ... in v] runs over. *)
Definition iterate_over (v : pyval) : res (list pyval) :=
  match v with
  | PList l => Ok l
  | PStr s => Ok (map (fun c => PStr [c]) s)
  | PDict d => Ok (map (fun kv => PStr (fst kv)) d)
  | _ => Raise TypeError
  end.

Fixpoint is_prefix (a b : str) : bool :=
  match a, b with
  | [], _ => true
  | x :: a', y :: b' => Ascii.eqb x y && is_prefix a' b'
  | _ :: _, [] => false
  end.

Fixpoint is_infix (a b : str) : bool :=
  is_prefix a b || match b with [] => false | _ :: b' => is_infix a b' end.

(** [k in v] for a string [k] *)
Definition contains (v : pyval) (k : str) : res bool :=
  match v with
  | PDict d => Ok (match dict_lookup d k with Some _ => true | None => false end)
  | PList l =>
      Ok (existsb (fun x => match x with PStr s => str_eqb s k | _ => false end) l)
  | PStr s => Ok (is_infix k s)
  | _ => Raise TypeError
  end.

(** [v.get(k, default)] *)
Definition get (v : pyval) (k : str) (default : pyval) : res pyval :=
  match v with
  | PDict d =>
      Ok (match dict_lookup d k with Some x => x | None => default end)
  | _ => Raise AttributeError
  end.

(** [1 - v] *)
Definition one_minus (v : pyval) : res pyval :=
  match v with
  | PBool b => Ok (PInt (1 - (if b then 1 else 0)))
  | PInt n => Ok (PInt (1 - n))
  | PFloat f => Ok (PFloat (1 - f)%float)
  | _ => Raise TypeError
  end.

End PyText.

(** ** The SQLite database *)

Module Sqlite.
Import Py PyText.

Record document_row := mk_document {
  d_id : Z;
  d_filename : str;
  d_file_hash : str;
  d_file_type : str;
  d_chunk_count : Z
}.

Record chunk_row := mk_chunk {
  c_id : Z;
  c_document_id : Z;
  c_chunk_index : Z;
  c_content : str
}.

(** The two tables, rows in insertion order, and for each table the
    largest row id ever handed out (the [sqlite_sequence] entry that
    AUTOINCREMENT keeps, also across a [DELETE FROM]). *)
Record database := mk_database {
  documents : list document_row;
  chunks : list chunk_row;
  seq_documents : Z;
  seq_chunks : Z
}.

(** What [setup_database] leaves: the file as it was, or two empty tables
    when there was none ([CREATE TABLE IF NOT EXISTS]). *)
Definition setup_database (existing : option database) : database :=
  match existing with
  | Some db => db
  | None => {| documents := []; chunks := [];
               seq_documents := 0; seq_chunks := 0 |}
  end.

(** A connection: what is committed in the file, and what this connection
    sees (its open transaction). *)
Record connection := mk_connection {
  committed : database;
  working : database
}.

Definition connect (db : database) : connection :=
  {| committed := db; working := db |}.

Definition execute (f : database -> database) (c : connection) : connection :=
  {| committed := committed c; working := f (working c) |}.

Definition commit (c : connection) : connection :=
  {| committed := working c; working := working c |}.

(** Closing (or dropping) a connection discards what was not committed. *)
Definition close (c : connection) : database := committed c.

(** [SELECT id FROM documents WHERE file_hash = ?], [fetchone()] *)
Definition select_id_by_hash (h : str) (db : database) : option Z :=
  match filter (fun d => str_eqb (d_file_hash d) h) (documents db) with
  | d :: _ => Some (d_id d)
  | [] => None
  end.

(** [INSERT INTO documents (filename, file_hash, file_type, chunk_count)];
    [file_hash] is UNIQUE.  Gives [lastrowid] and the new tables. *)
Definition insert_document (filename h file_type : str) (count : Z)
    (db : database) : res (Z * database) :=
  if existsb (fun d => str_eqb (d_file_hash d) h) (documents db)
  then Raise IntegrityError
  else
    let id := seq_documents db + 1 in
    Ok (id,
        {| documents := documents db
             ++ [ {| d_id := id; d_filename := filename; d_file_hash := h;
                     d_file_type := file_type; d_chunk_count := count |} ];
           chunks := chunks db;
           seq_documents := id;
           seq_chunks := seq_chunks db |}).

(** [INSERT INTO chunks (document_id, chunk_index, content)] *)
Definition insert_chunk (document_id index : Z) (content : str)
    (db : database) : database :=
  let id := seq_chunks db + 1 in
  {| documents := documents db;
     chunks := chunks db
       ++ [ {| c_id := id; c_document_id := document_id;
               c_chunk_index := index; c_content := content |} ];
     seq_documents := seq_documents db;
     seq_chunks := id |}.

Definition delete_from_chunks (db : database) : database :=
  {| documents := documents db; chunks := [];
     seq_documents := seq_documents db; seq_chunks := seq_chunks db |}.

Definition delete_from_documents (db : database) : database :=
  {| documents := []; chunks := chunks db;
     seq_documents := seq_documents db; seq_chunks := seq_chunks db |}.

(** [LOWER(x)]: only "A".."Z" are folded. *)
Definition sql_lower_char (c : ascii) : ascii :=
  if is_ascii_upper c then shift32 c else c.

Definition sql_lower (s : str) : str := map sql_lower_char s.

(** Character comparison of [LIKE]: equal, or equal after folding
    "A".."Z". *)
Definition like_char (p c : ascii) : bool :=
  Ascii.eqb (sql_lower_char p) (sql_lower_char c).

(** [text LIKE pattern] without ESCAPE: "%" stands for any run of
    characters, "_" for any one character. *)
Fixpoint like (pattern : str) : str -> bool :=
  match pattern with
  | [] => fun text => negb (truthy text)
  | p :: pattern' =>
      if Ascii.eqb p "%" then
        fix any_run (text : str) : bool :=
          like pattern' text
          || match text with
             | [] => false
             | _ :: text' => any_run text'
             end
      else if Ascii.eqb p "_" then
        fun text =>
          match text with
          | [] => false
          | _ :: text' => like pattern' text'
          end
      else
        fun text =>
          match text with
          | [] => false
          | c :: text' => like_char p c && like pattern' text'
          end
  end.

(** [ORDER BY c.id] *)
Fixpoint insert_by_id (c : chunk_row) (l : list chunk_row) : list chunk_row :=
  match l with
  | [] => [c]
  | x :: l' => if c_id c <? c_id x then c :: l else x :: insert_by_id c l'
  end.

Definition order_by_id (l : list chunk_row) : list chunk_row :=
  fold_right insert_by_id [] l.

(** [LIMIT n]: a negative [n] means no limit. *)
Definition limit {A} (n : Z) (l : list A) : list A :=
  if n <? 0 then l else firstn (Z.to_nat n) l.

(** [SELECT c.content, d.filename, c.chunk_index
     FROM chunks c JOIN documents d ON c.document_id = d.id
     WHERE LOWER(c.content) LIKE ? ORDER BY c.id LIMIT ?] *)
Definition select_like (pattern : str) (n : Z) (db : database)
    : list (str * str * Z) :=
  limit n
    (flat_map
       (fun c =>
          map (fun d => (c_content c, d_filename d, c_chunk_index c))
            (filter (fun d => d_id d =? c_document_id c) (documents db)))
       (order_by_id
          (filter (fun c => like pattern (sql_lower (c_content c)))
             (chunks db)))).

(** [SELECT file_type, COUNT( * ) FROM documents GROUP BY file_type],
    as the association list behind the [dict]. *)
Fixpoint bump (k : str) (d : list (str * Z)) : list (str * Z) :=
  match d with
  | [] => [(k, 1)]
  | (k', n) :: d' =>
      if str_eqb k' k then (k', n + 1) :: d' else (k', n) :: bump k d'
  end.

Definition group_counts (docs : list document_row) : list (str * Z) :=
  fold_left (fun acc d => bump (d_file_type d) acc) docs [].

End Sqlite.

(** ** The processor: ingestion, retrieval, statistics, reset *)

Module Processor.
Import Py PyText Sqlite.

(** What is found at a path: nothing, something that cannot be opened
    for reading (a directory, say), or a file with its bytes. *)
Inductive fs_entry :=
| Missing
| Unreadable
| File (bytes : list Byte.byte).

(** A call into code that has a state of its own: it returns or raises,
    and leaves a state either way. *)
Inductive outcome (S : Type) :=
| Returned (s : S)
| Raised (s : S).
Arguments Returned {S} s.
Arguments Raised {S} s.

Definition state_after {S} (o : outcome S) : S :=
  match o with Returned s => s | Raised s => s end.

(** One entry of the list that [search_knowledge] returns. *)
Record result := mk_result {
  content : pyval;
  filename : pyval;
  chunk_index : pyval;
  relevance_score : pyval
}.

Record stats := mk_stats {
  total_documents : Z;
  total_chunks : Z;
  file_types : list (str * Z)
}.

Section WithLibraries.

(** The state of the vector store, and the state the progress callback
    acts on (a window, a log).  The callback has no handle on the
    processor. *)
Variable Index : Type.
Variable Observer : Type.

(** The file system and the functions of other libraries. *)
Record libraries := mk_libraries {
  file_at : str -> fs_entry;
  md5_hexdigest : list Byte.byte -> str;
  basename : str -> str;
  suffix : str -> str;
  pdf_pages : list Byte.byte -> res (list str);
  docx_paragraphs : list Byte.byte -> res (list str);
  read_utf8 : list Byte.byte -> option str;
  read_latin1 : list Byte.byte -> str;
  collection_add : list str -> list pyval -> list str -> Index -> outcome Index;
  collection_query : str -> Z -> Index -> res pyval;
  recreate_collection : Index -> outcome Index
}.

Variable L : libraries.

(** [self.db_file] and, when [self.chroma_client and self.collection]
    holds, the collection. *)
Record processor := mk_processor {
  db : database;
  chroma : option Index
}.

Definition callback := str -> Observer -> outcome Observer.

(** [if progress_callback: progress_callback(message)] *)
Definition notify (progress_callback : option callback) (message : str)
    (w : Observer) : outcome Observer :=
  match progress_callback with
  | Some f => f message w
  | None => Returned w
  end.

Definition calculate_file_hash (bytes : list Byte.byte) : str :=
  md5_hexdigest L bytes.

Definition newline : str := ["010"%char].

Definition extract_text_from_pdf (bytes : list Byte.byte) : res str :=
  bind (pdf_pages L bytes) (fun pages =>
    Ok (strip (fold_left (fun text page => text ++ page ++ newline) pages []))).

Definition extract_text_from_docx (bytes : list Byte.byte) : res str :=
  bind (docx_paragraphs L bytes) (fun paragraphs =>
    Ok (strip (fold_left (fun text par => text ++ par ++ newline)
                 paragraphs []))).

Definition extract_text_from_txt (bytes : list Byte.byte) : res str :=
  match read_utf8 L bytes with
  | Some text => Ok (strip text)
  | None => Ok (strip (read_latin1 L bytes))
  end.

(** The dispatch on the extension; [None] for an unsupported one. *)
Definition extract_text (file_ext : str) (bytes : list Byte.byte)
    : option (res str) :=
  if str_eqb file_ext (of_string ".pdf") then
    Some (extract_text_from_pdf bytes)
  else if str_eqb file_ext (of_string ".docx") then
    Some (extract_text_from_docx bytes)
  else if str_eqb file_ext (of_string ".txt") then
    Some (extract_text_from_txt bytes)
  else None.

(** [for i, chunk in enumerate(chunks): INSERT INTO chunks ...] *)
Fixpoint insert_chunks (document_id i : Z) (chunks : list str)
    (tables : database) : database :=
  match chunks with
  | [] => tables
  | chunk :: rest =>
      insert_chunks document_id (i + 1) rest
        (insert_chunk document_id i chunk tables)
  end.

Definition range (n : nat) : list Z := map Z.of_nat (seq 0 n).

Definition chunk_ids (document_id : Z) (n : nat) : list str :=
  map (fun i => str_of_int document_id ++ of_string "_" ++ str_of_int i)
    (range n).

Definition metadatas (document_id : Z) (filename : str) (n : nat)
    : list pyval :=
  map (fun i => PDict [ (of_string "document_id", PInt document_id);
                        (of_string "filename", PStr filename);
                        (of_string "chunk_index", PInt i) ])
    (range n).

(** [process_document].  [Some (b, p', w')]: the call returned [b] and left
    the processor [p'] and the observer [w']; [None]: the fuel ran out in
    [chunk_text]. *)
Definition process_document (fuel : nat) (file_path : str)
    (progress_callback : option callback) (p : processor) (w : Observer)
    : option (bool * processor * Observer) :=
  let leave (b : bool) (conn : connection) (w : Observer) :=
    Some (b, {| db := close conn; chroma := chroma p |}, w) in
  match file_at L file_path with
  | Missing => Some (false, p, w)
  | Unreadable => Some (false, p, w)
  | File bytes =>
    let file_hash := calculate_file_hash bytes in
    let filename := basename L file_path in
    let file_ext := lower (suffix L file_path) in
    let conn := connect (db p) in
    match select_id_by_hash file_hash (working conn) with
    | Some _ => leave true conn w
    | None =>
    match notify progress_callback (of_string "Extraindo texto do documento...") w with
    | Raised w => leave false conn w
    | Returned w =>
    match extract_text file_ext bytes with
    | None => leave false conn w
    | Some (Raise _) => leave false conn w
    | Some (Ok text) =>
    if negb (truthy (strip text)) then leave false conn w else
    match notify progress_callback (of_string "Dividindo texto em chunks...") w with
    | Raised w => leave false conn w
    | Returned w =>
    match Chunker.chunk_text fuel text Chunker.default_chunk_size
            Chunker.default_overlap with
    | None => None
    | Some chunks =>
    match insert_document filename file_hash file_ext (len chunks)
            (working conn) with
    | Raise _ => leave false conn w
    | Ok (document_id, tables) =>
    let conn := execute (fun _ => insert_chunks document_id 0 chunks tables)
                  conn in
    let conn := commit conn in
    match notify progress_callback (of_string "Criando embeddings para busca...") w with
    | Raised w => leave false conn w
    | Returned w =>
    let chroma' :=
      match chroma p with
      | Some collection =>
          Some (state_after
                  (collection_add L chunks
                     (metadatas document_id filename (List.length chunks))
                     (chunk_ids document_id (List.length chunks))
                     collection))
      | None => None
      end in
    Some (true, {| db := close conn; chroma := chroma' |}, w)
    end end end end end end end
  end.

(** *** Retrieval *)

(** The dictionary appended for the [i]-th document of the answer. *)
Definition semantic_entry (search_results : pyval) (i : Z) (doc : pyval)
    : res result :=
  (ms <- getitem_key search_results (of_string "metadatas") ;;
   m0 <- getitem_index ms 0 ;;
   metadata <- getitem_index m0 i ;;
   has_distances <- contains search_results (of_string "distances") ;;
   distance <-
     (if has_distances : bool then
        ds <- getitem_key search_results (of_string "distances") ;;
        d0 <- getitem_index ds 0 ;;
        getitem_index d0 i
      else Ok (PInt 0)) ;;
   name <- get metadata (of_string "filename") (PStr (of_string "Unknown")) ;;
   index <- get metadata (of_string "chunk_index") (PInt 0) ;;
   score <- one_minus distance ;;
   Ok {| content := doc; filename := name; chunk_index := index;
         relevance_score := score |})%py.

(** The [for] loop over the documents of the answer: [results] grows as
    the loop goes, and keeps what was appended when an entry raises. *)
Fixpoint semantic_loop (search_results : pyval) (i : Z) (docs : list pyval)
    (results : list result) : list result * res unit :=
  match docs with
  | [] => (results, Ok tt)
  | doc :: rest =>
      match semantic_entry search_results i doc with
      | Ok r => semantic_loop search_results (i + 1) rest (results ++ [r])
      | Raise e => (results, Raise e)
      end
  end.

(** The body of the [try], after the query came back. *)
Definition semantic_results (search_results : pyval) (results : list result)
    : list result * res unit :=
  match getitem_key search_results (of_string "documents") with
  | Raise e => (results, Raise e)
  | Ok documents =>
      if truth documents then
        match getitem_index documents 0 with
        | Raise e => (results, Raise e)
        | Ok first =>
            if truth first then
              match iterate_over first with
              | Raise e => (results, Raise e)
              | Ok docs => semantic_loop search_results 0 docs results
              end
            else (results, Ok tt)
        end
      else (results, Ok tt)
  end.

Definition semantic_search (collection : Index) (query : str)
    (max_results : Z) (results : list result) : list result * res unit :=
  match collection_query L query max_results collection with
  | Raise e => (results, Raise e)
  | Ok search_results => semantic_results search_results results
  end.

Definition search_pattern (query : str) : str :=
  let query_words := split (lower query) in
  of_string "%" ++ join (of_string "%") query_words ++ of_string "%".

Definition keyword_result (row : str * str * Z) : result :=
  {| content := PStr (fst (fst row));
     filename := PStr (snd (fst row));
     chunk_index := PInt (snd row);
     relevance_score := PFloat 0.5 |}.

(** The keyword path: the rows of the LIKE query are appended to
    [results]. *)
Definition keyword_search (tables : database) (query : str) (max_results : Z)
    (results : list result) : list result :=
  results
  ++ map keyword_result (select_like (search_pattern query) max_results tables).

Definition search_knowledge (p : processor) (query : str) (max_results : Z)
    : res (list result) :=
  let results := [] in
  match chroma p with
  | Some collection =>
      match semantic_search collection query max_results results with
      | (results, Ok _) => Ok results
      | (results, Raise _) =>
          Ok (keyword_search (db p) query max_results results)
      end
  | None => Ok (keyword_search (db p) query max_results results)
  end.

(** *** Statistics and reset *)

Definition get_document_stats (p : processor) : stats :=
  {| total_documents := len (documents (db p));
     total_chunks := len (chunks (db p));
     file_types := group_counts (documents (db p)) |}.

(** The states of the connection of [clear_knowledge_base]: opened, after
    each DELETE, after the commit. *)
Definition clear_transaction (tables : database) : list connection :=
  let c0 := connect tables in
  let c1 := execute delete_from_chunks c0 in
  let c2 := execute delete_from_documents c1 in
  let c3 := commit c2 in
  [c0; c1; c2; c3].

Definition clear_knowledge_base (p : processor) : processor :=
  {| db := close (last (clear_transaction (db p)) (connect (db p)));
     chroma :=
       match chroma p with
       | Some collection =>
           Some (state_after (recreate_collection L collection))
       | None => None
       end |}.

End WithLibraries.

Arguments mk_processor {Index} db chroma.
Arguments db {Index} p.
Arguments chroma {Index} p.
Arguments file_at {Index} l _.
Arguments md5_hexdigest {Index} l _.
Arguments basename {Index} l _.
Arguments suffix {Index} l _.
Arguments pdf_pages {Index} l _.
Arguments docx_paragraphs {Index} l _.
Arguments read_utf8 {Index} l _.
Arguments read_latin1 {Index} l _.
Arguments collection_add {Index} l _ _ _ _.
Arguments collection_query {Index} l _ _ _.
Arguments recreate_collection {Index} l _.
Arguments extract_text {Index} L file_ext bytes.
Arguments process_document {Index Observer} L fuel file_path
  progress_callback p w.
Arguments search_knowledge {Index} L p query max_results.
Arguments semantic_search {Index} L collection query max_results results.
Arguments get_document_stats {Index} p.
Arguments clear_knowledge_base {Index} L p.
Arguments notify {Observer} progress_callback message w.

End Processor.

(** ** The specification's reading of the keyword match *)

Module SpecWords.
Import Py.

(** "All tokens appear in the content in sequence": the content is some
    text, the first token, some text, the second token, and so on. *)
Fixpoint tokens_in_sequence (tokens : list str) (text : str) : Prop :=
  match tokens with
  | [] => True
  | t :: rest =>
      exists before after,
        text = before ++ t ++ after /\ tokens_in_sequence rest after
  end.

End SpecWords.

(** ** The vocabulary of the statements *)

Module Vocabulary.
Import Py PyText Sqlite Processor.

(** *** Strings and chunks *)

(** The first character, if there is one, is not whitespace. *)
Definition head_ok (s : str) : Prop :=
  match s with [] => True | x :: _ => isspace x = false end.

(** The loop variables on entry: [start = 0], [chunks = []]. *)
Definition init_state : Chunker.loop_state :=
  {| Chunker.start := 0; Chunker.chunks := [] |}.

(** A chunk as the loop appends it: not empty, and equal to its own
    [strip()]. *)
Definition trimmed_nonempty (c : str) : Prop := c <> [] /\ strip c = c.

Definition chunks_of (text : str) (ws : list (Z * Z)) : list str :=
  filter truthy (map (fun w => strip (slice text (fst w) (snd w))) ws).

Definition no_terminator (text : str) : Prop :=
  ~ In "."%char text /\ ~ In "!"%char text /\ ~ In "?"%char text.

Definition at_offset (k : Z) : Chunker.loop_state :=
  {| Chunker.start := k; Chunker.chunks := [] |}.

(** *** LIKE and case folding *)

(** Two strings that LIKE compares equal, character by character. *)
Definition like_equal (t u : str) : Prop :=
  Forall2 (fun p c => like_char p c = true) t u.

Definition literal (t : str) : Prop :=
  ~ In "%"%char t /\ ~ In "_"%char t.

(** The pattern that [search_knowledge] builds from the tokens. *)
Definition pattern_of (tokens : list str) : str :=
  of_string "%" ++ join (of_string "%") tokens ++ of_string "%".

(** LIKE's reading of that pattern: the tokens in sequence, each compared
    with [like_equal]. *)
Fixpoint like_in_sequence (tokens : list str) (text : str) : Prop :=
  match tokens with
  | [] => True
  | t :: rest =>
      exists before u after,
        text = before ++ u ++ after /\ like_equal t u
        /\ like_in_sequence rest after
  end.

Definition folded (s : str) : Prop :=
  Forall (fun c => is_ascii_upper c = false) s.

Definition no_wildcard (query : str) : Prop :=
  ~ In "%"%char query /\ ~ In "_"%char query.

(** *** The tables *)

Definition ascending (l : list chunk_row) : Prop :=
  StronglySorted (fun a b => c_id a < c_id b) l.

(** What holds of the tables in every state the class can bring about:
    row ids and fingerprints are unique, ids are within the counters, the
    chunk rows are in ascending id order, and every chunk names an
    existing document. *)
Record store_wf (tables : database) : Prop := mk_store_wf {
  wf_document_ids : NoDup (map d_id (documents tables));
  wf_hashes : NoDup (map d_file_hash (documents tables));
  wf_document_seq :
    Forall (fun d => d_id d <= seq_documents tables) (documents tables);
  wf_chunk_order : ascending (chunks tables);
  wf_chunk_seq :
    Forall (fun c => c_id c <= seq_chunks tables) (chunks tables);
  wf_owner :
    Forall (fun c => In (c_document_id c) (map d_id (documents tables)))
      (chunks tables)
}.

(** The file name of the document that owns a chunk, and the row that the
    query gives for the chunk. *)
Definition owner_filename (tables : database) (c : chunk_row) : str :=
  match filter (fun d => d_id d =? c_document_id c) (documents tables) with
  | d :: _ => d_filename d
  | [] => []
  end.

Definition row_of (tables : database) (c : chunk_row) : str * str * Z :=
  (c_content c, owner_filename tables c, c_chunk_index c).

Definition matches (pattern : str) (c : chunk_row) : bool :=
  like pattern (sql_lower (c_content c)).

Definition scored_half (r : result) : Prop := relevance_score r = PFloat 0.5.

(** *** The processor *)

Section WithLibraries.

Context {Index Observer : Type}.
Variable L : libraries Index.

(** The three ways a call of [process_document] ends: nothing stored and
    [False]; the fingerprint was already there, nothing done and [True];
    or a document row and its chunk rows were committed. *)
Definition failed (p p' : processor Index) (b : bool) : Prop :=
  b = false /\ p' = p.

Definition skipped (path : str) (p p' : processor Index) (b : bool)
    (w w' : Observer) : Prop :=
  b = true /\ p' = p /\ w' = w
  /\ exists bytes id,
       file_at L path = File bytes
       /\ select_id_by_hash (md5_hexdigest L bytes) (db p) = Some id.

Definition stored (fuel : nat) (path : str) (p p' : processor Index)
    (b : bool) : Prop :=
  exists bytes text cs id tables,
    file_at L path = File bytes
    /\ select_id_by_hash (md5_hexdigest L bytes) (db p) = None
    /\ extract_text L (lower (suffix L path)) bytes = Some (Ok text)
    /\ truthy (strip text) = true
    /\ Chunker.chunk_text fuel text Chunker.default_chunk_size
         Chunker.default_overlap = Some cs
    /\ insert_document (basename L path) (md5_hexdigest L bytes)
         (lower (suffix L path)) (len cs) (db p) = Ok (id, tables)
    /\ db p' = insert_chunks id 0 cs tables
    /\ (b = true \/ chroma p' = chroma p).

(** A callback that returns, whatever the message and the state. *)
Definition always_returns (cb : callback Observer) : Prop :=
  forall message w, exists w', cb message w = Returned w'.

(** The ways into the keyword path, with what [results] holds by then:
    no collection; the query raised; the answer could not be read to the
    end. *)
Inductive keyword_path (p : processor Index) (query : str) (n : Z)
    : list result -> Prop :=
| index_absent :
    chroma p = None -> keyword_path p query n []
| query_raised collection e :
    chroma p = Some collection ->
    collection_query L query n collection = Raise e ->
    keyword_path p query n []
| answer_malformed collection answer partial e :
    chroma p = Some collection ->
    collection_query L query n collection = Ok answer ->
    semantic_results answer [] = (partial, Raise e) ->
    keyword_path p query n partial.

End WithLibraries.

Arguments always_returns {Observer} cb.
Arguments failed {Index} p p' b.
Arguments keyword_path {Index} L p query n _.

End Vocabulary.

(** Inputs used in the examples below. *)
Module Inputs.
Import Py.

(** A short sentence followed by 1000 characters without punctuation. *)
Definition stuck_text : str := of_string "Hi. " ++ repeat "a"%char 1000.

(** 2500 characters without punctuation. *)
Definition plain_2500 : str := repeat "a"%char 2500.

Definition padded : str := of_string "  a  ".
Definition blank : str := of_string "   ".

(** A small world: three text files (two with the same bytes), a
    directory, no PDF or DOCX reader, a vector store that always fails. *)
Import PyText Sqlite Processor.

Definition text_of_bytes (b : list Byte.byte) : str := map ascii_of_byte b.

Definition cats : list Byte.byte :=
  list_byte_of_string "Hello world. This is a test document about cats.".

Definition toy_suffix (path : str) : str :=
  let k := rfind path "." 0 (len path) in
  if k <? 0 then [] else slice path k (len path).

Definition toy_files (path : str) : fs_entry :=
  if str_eqb path (of_string "cats.txt") then File cats
  else if str_eqb path (of_string "copy.TXT") then File cats
  else if str_eqb path (of_string "dogs.txt") then
    File (list_byte_of_string "Dogs bark. ABC and more.")
  else if str_eqb path (of_string "folder") then Unreadable
  else Missing.

Definition toy : libraries unit :=
  {| file_at := toy_files;
     md5_hexdigest := text_of_bytes;
     basename := fun path => path;
     suffix := toy_suffix;
     pdf_pages := fun _ => Raise LibraryError;
     docx_paragraphs := fun _ => Raise LibraryError;
     read_utf8 := fun b => Some (text_of_bytes b);
     read_latin1 := text_of_bytes;
     collection_add := fun _ _ _ ix => Raised ix;
     collection_query := fun _ _ _ => Raise LibraryError;
     recreate_collection := fun ix => Raised ix |}.

(** The same world with a vector store that answers: with no hit, and
    with two documents but metadata for the first only. *)
Definition answer (documents metadatas : list pyval) : pyval :=
  PDict [ (of_string "documents", PList [PList documents]);
          (of_string "metadatas", PList [PList metadatas]) ].

Definition with_answer (a : pyval) : libraries unit :=
  {| file_at := toy_files;
     md5_hexdigest := text_of_bytes;
     basename := fun path => path;
     suffix := toy_suffix;
     pdf_pages := fun _ => Raise LibraryError;
     docx_paragraphs := fun _ => Raise LibraryError;
     read_utf8 := fun b => Some (text_of_bytes b);
     read_latin1 := text_of_bytes;
     collection_add := fun _ _ _ ix => Returned ix;
     collection_query := fun _ _ _ => Ok a;
     recreate_collection := fun ix => Returned ix |}.

Definition no_hit : pyval := answer [] [].

Definition half_answer : pyval :=
  answer [PStr (of_string "first"); PStr (of_string "second")]
         [PDict [(of_string "filename", PStr (of_string "a.txt"))]].

(** A complete answer for two documents. *)
Definition full_answer : pyval :=
  PDict [ (of_string "documents",
           PList [PList [PStr (of_string "first"); PStr (of_string "second")]]);
          (of_string "metadatas",
           PList [PList (map PDict
                    [ [(of_string "filename", PStr (of_string "a.txt"));
                       (of_string "chunk_index", PInt 3)];
                      [] ])]);
          (of_string "distances",
           PList [PList (map PFloat [0.25%float; 1.5%float])]) ].

(** A callback that records the messages, and one that raises. *)
Definition recording : callback (list str) :=
  fun message w => Returned (w ++ [message]).

Definition raising : callback unit :=
  fun message w => Raised w.

Definition fresh : processor unit :=
  {| db := setup_database None; chroma := None |}.

(** [fresh] after [process_document("cats.txt")]. *)
Definition one_document : processor unit :=
  match process_document toy 1 (of_string "cats.txt") None fresh tt with
  | Some (_, p, _) => p
  | None => fresh
  end.

(** [fresh] after [process_document("cats.txt")] and
    [process_document("dogs.txt")]. *)
Definition two_documents : processor unit :=
  match process_document toy 1 (of_string "cats.txt") None fresh tt with
  | Some (_, p, _) =>
      match process_document toy 1 (of_string "dogs.txt") None p tt with
      | Some (_, p', _) => p'
      | None => p
      end
  | None => fresh
  end.

End Inputs.

(** ** The answer composer: [LocalLLM] of [src/llm_system.py] *)

Module Llm.
Import Py PyText Sqlite Processor.

(** An entry of [conversation_history]. *)
Record turn := mk_turn {
  user : str;
  assistant : str;
  context_used : bool
}.

(** What [requests.post] returns: the status code and what [.json()]
    gives, or raises. *)
Record response := mk_response {
  status_code : Z;
  json : res pyval
}.

Definition system_prompt : str :=
  of_string "Voc" ++ ["234"%char] ++ of_string " " ++ ["233"%char] ++
  of_string " um assistente inteligente que responde perguntas baseado " ++
  of_string "em documentos fornecidos pelo usu" ++ ["225"%char] ++
  of_string "rio. " ++ ["010"%char] ++ ["010"%char] ++ of_string "Instru" ++
  ["231"%char] ++ ["245"%char] ++ of_string "es:" ++ ["010"%char] ++
  of_string "- Responda sempre em portugu" ++ ["234"%char] ++
  of_string "s brasileiro" ++ ["010"%char] ++
  of_string "- Use apenas as informa" ++ ["231"%char] ++ ["245"%char] ++
  of_string "es dos documentos fornecidos quando dispon" ++ ["237"%char] ++
  of_string "veis" ++ ["010"%char] ++ of_string "- Se n" ++ ["227"%char] ++
  of_string "o houver informa" ++ ["231"%char] ++ ["227"%char] ++
  of_string "o suficiente nos documentos, diga que n" ++ ["227"%char] ++
  of_string "o encontrou a informa" ++ ["231"%char] ++ ["227"%char] ++
  of_string "o" ++ ["010"%char] ++ of_string "- Seja preciso e objetivo" ++
  ["010"%char] ++ of_string "- Cite a fonte quando poss" ++ ["237"%char] ++
  of_string "vel (nome do arquivo)" ++ ["010"%char].

Definition documents_heading : str :=
  ["010"%char] ++ ["010"%char] ++ of_string "Contexto dos documentos:" ++
  ["010"%char].

Definition additional_heading : str :=
  ["010"%char] ++ ["010"%char] ++ of_string "Contexto adicional:" ++
  ["010"%char].

Definition question_heading : str :=
  ["010"%char] ++ ["010"%char] ++ of_string "Pergunta do usu" ++
  ["225"%char] ++ of_string "rio: ".

Definition answer_heading : str :=
  ["010"%char] ++ ["010"%char] ++ of_string "Resposta:".

Definition generation_failed : str :=
  of_string "Desculpe, ocorreu um erro ao gerar a resposta.".

Definition processing_failed : str :=
  of_string "Desculpe, ocorreu um erro ao processar sua pergunta.".

(** [v.strip()] on a dynamic value: only a string has the method. *)
Definition strip_value (v : pyval) : res str :=
  match v with
  | PStr s => Ok (strip s)
  | _ => Raise AttributeError
  end.

Section WithServices.

Variable Index : Type.

(** The libraries of the processor, the generation server, and [repr]
    for the values whose [str()] is their [repr()]. *)
Record services := mk_services {
  libs : libraries Index;
  http_post : str -> pyval -> res response;
  repr : pyval -> str
}.

Variable S : services.

Record local_llm := mk_local_llm {
  model_name : str;
  base_url : str;
  document_processor : processor Index;
  conversation_history : list turn
}.

(** [f"{v}"] *)
Definition format_value (v : pyval) : str :=
  match v with
  | PStr s => s
  | PInt n => str_of_int n
  | PNone => of_string "None"
  | PBool true => of_string "True"
  | PBool false => of_string "False"
  | _ => repr S v
  end.

(** [f"[{result['filename']}]: {result['content']}"] *)
Definition quote (r : result) : str :=
  of_string "[" ++ format_value (filename r) ++ of_string "]: "
  ++ format_value (content r).

(** The text put before the question: the first three results, quoted
    and separated by an empty line; empty when the search is not asked for
    or finds nothing. *)
Definition relevant_context_of (llm : local_llm) (prompt : str)
    (use_context : bool) : res str :=
  if use_context then
    bind (search_knowledge (libs S) (document_processor llm) prompt 5)
      (fun search_results =>
         if truthy search_results
         then Ok (join [ "010"%char; "010"%char ]
                    (map quote (firstn 3 search_results)))
         else Ok [])
  else Ok [].

Definition full_prompt_of (relevant_context context prompt : str) : str :=
  system_prompt
  ++ (if truthy relevant_context
      then documents_heading ++ relevant_context else [])
  ++ (if truthy context then additional_heading ++ context else [])
  ++ question_heading ++ prompt ++ answer_heading.

Definition payload_of (llm : local_llm) (full_prompt : str) : pyval :=
  PDict [ (of_string "model", PStr (model_name llm));
          (of_string "prompt", PStr full_prompt);
          (of_string "stream", PBool false);
          (of_string "options",
           PDict [ (of_string "temperature", PFloat 0.7);
                   (of_string "top_p", PFloat 0.9);
                   (of_string "max_tokens", PInt 2000) ]) ].

(** The body of the [try] of [generate_response]: the answer and the
    object afterwards, or an exception. *)
Definition generate (llm : local_llm) (prompt context : str)
    (use_context : bool) : res (str * local_llm) :=
  (relevant_context <- relevant_context_of llm prompt use_context ;;
   let full_prompt := full_prompt_of relevant_context context prompt in
   response <- http_post S (base_url llm ++ of_string "/api/generate")
                 (payload_of llm full_prompt) ;;
   if status_code response =? 200 then
     result <- json response ;;
     text <- get result (of_string "response") (PStr []) ;;
     answer <- strip_value text ;;
     Ok (answer,
         {| model_name := model_name llm;
            base_url := base_url llm;
            document_processor := document_processor llm;
            conversation_history :=
              conversation_history llm
              ++ [ {| user := prompt; assistant := answer;
                      context_used := truthy relevant_context |} ] |})
   else Ok (generation_failed, llm))%py.

Definition generate_response (llm : local_llm) (prompt context : str)
    (use_context : bool) : str * local_llm :=
  match generate llm prompt context use_context with
  | Ok r => r
  | Raise _ => (processing_failed, llm)
  end.

(** [clear_knowledge]: the knowledge base and the history. *)
Definition clear_knowledge (llm : local_llm) : local_llm :=
  {| model_name := model_name llm;
     base_url := base_url llm;
     document_processor :=
       clear_knowledge_base (libs S) (document_processor llm);
     conversation_history := [] |}.

Definition clear_conversation (llm : local_llm) : local_llm :=
  {| model_name := model_name llm;
     base_url := base_url llm;
     document_processor := document_processor llm;
     conversation_history := [] |}.

Definition get_knowledge_stats (llm : local_llm) : stats :=
  get_document_stats (document_processor llm).

End WithServices.

Arguments libs {Index} s.
Arguments http_post {Index} s _ _.
Arguments repr {Index} s _.
Arguments model_name {Index} l.
Arguments base_url {Index} l.
Arguments document_processor {Index} l.
Arguments conversation_history {Index} l.
Arguments format_value {Index} S v.
Arguments quote {Index} S r.
Arguments relevant_context_of {Index} S llm prompt use_context.
Arguments payload_of {Index} llm full_prompt.
Arguments generate {Index} S llm prompt context use_context.
Arguments generate_response {Index} S llm prompt context use_context.
Arguments clear_knowledge {Index} S llm.
Arguments clear_conversation {Index} llm.
Arguments get_knowledge_stats {Index} llm.

End Llm.

(** A generation server for the examples: one that answers, one that
    refuses, one that cannot be reached. *)
Module LlmInputs.
Import Py PyText Sqlite Processor Llm Inputs.

Definition answering : services unit :=
  {| libs := toy;
     http_post := fun _ _ =>
       Ok {| status_code := 200;
             json := Ok (PDict [ (of_string "response",
                                  PStr (of_string "  Cats purr.  ")) ]) |};
     repr := fun _ => of_string "?" |}.

Definition refusing : services unit :=
  {| libs := toy;
     http_post := fun _ _ =>
       Ok {| status_code := 500; json := Raise LibraryError |};
     repr := fun _ => of_string "?" |}.

Definition unreachable : services unit :=
  {| libs := toy;
     http_post := fun _ _ => Raise LibraryError;
     repr := fun _ => of_string "?" |}.

Definition assistant_with (p : processor unit) : local_llm unit :=
  {| model_name := of_string "llama3.1:8b";
     base_url := of_string "http://localhost:11434";
     document_processor := p;
     conversation_history := [] |}.

End LlmInputs.

(** ** More vocabulary: positions in a text, substrings *)

Module MoreVocabulary.
Import Py PyText Sqlite Processor Vocabulary.

(** The character at index [i] of a text, for [0 <= i < len]. *)
Definition char_at (s : str) (i : Z) : option ascii :=
  if i <? 0 then None else nth_error s (Z.to_nat i).

(** One of the three characters that [chunk_text] looks for. *)
Definition is_terminator (c : ascii) : Prop :=
  c = "."%char \/ c = "!"%char \/ c = "?"%char.

Definition terminator_at (text : str) (i : Z) : Prop :=
  exists c, char_at text i = Some c /\ is_terminator c.

(** [c] occurs in [text] as a run of consecutive characters. *)
Definition substring_of (c text : str) : Prop :=
  exists before after, text = before ++ c ++ after.

(** The value of [last_sentence] in [chunk_text]: the greatest of the
    three [rfind] results over [text[a:b]]. *)
Definition last_sentence (text : str) (a b : Z) : Z :=
  Z.max (Z.max (rfind text "." a b) (rfind text "!" a b)) (rfind text "?" a b).

(** The rows that the insertion loop of [process_document] appends for
    the chunks [cs] of document [id], the AUTOINCREMENT counter being at
    [seq] and the next index being [i]. *)
Fixpoint rows_from (seq id i : Z) (cs : list str) : list chunk_row :=
  match cs with
  | [] => []
  | c :: rest =>
      {| c_id := seq + 1; c_document_id := id; c_chunk_index := i;
         c_content := c |} :: rows_from (seq + 1) id (i + 1) rest
  end.

(** The chunk rows of a document, in table order. *)
Definition chunks_of_document (tables : database) (d : document_row)
    : list chunk_row :=
  filter (fun c => c_document_id c =? d_id d) (chunks tables).

(** Every stored chunk is trimmed and not empty. *)
Definition contents_trimmed (tables : database) : Prop :=
  Forall trimmed_nonempty (map c_content (chunks tables)).

(** Every document has at least one chunk, and its chunk rows carry the
    indices 0, 1, ..., chunk_count - 1, in this order. *)
Definition counts_match (tables : database) : Prop :=
  Forall (fun d =>
            1 <= d_chunk_count d
            /\ map c_chunk_index (chunks_of_document tables d)
               = range (Z.to_nat (d_chunk_count d)))
    (documents tables).

(** [file_types.get(t, 0)] on the association list behind the dict. *)
Fixpoint count_for (t : str) (d : list (str * Z)) : Z :=
  match d with
  | [] => 0
  | (k, n) :: d' => if str_eqb k t then n else count_for t d'
  end.

Definition sum_counts (d : list (str * Z)) : Z :=
  fold_right (fun kv acc => snd kv + acc) 0 d.

(** A callback, if there is one, that always returns. *)
Definition harmless {Observer} (cb : option (callback Observer)) : Prop :=
  match cb with
  | Some f => always_returns f
  | None => True
  end.

(** The entry that the semantic loop appends for a document of the
    answer, its metadata dictionary and its distance. *)
Definition semantic_result (doc : pyval) (meta : list (str * pyval))
    (distance : float) : result :=
  {| content := doc;
     filename := match dict_lookup meta (of_string "filename") with
                 | Some v => v
                 | None => PStr (of_string "Unknown")
                 end;
     chunk_index := match dict_lookup meta (of_string "chunk_index") with
                    | Some v => v
                    | None => PInt 0
                    end;
     relevance_score := PFloat (1 - distance)%float |}.

Fixpoint semantic_results_of (docs : list pyval)
    (metas : list (list (str * pyval))) (distances : list float)
    : list result :=
  match docs, metas, distances with
  | doc :: docs', m :: metas', d :: distances' =>
      semantic_result doc m d :: semantic_results_of docs' metas' distances'
  | _, _, _ => []
  end.

(** The keyword entry for chunk number [i] of a file. *)
Definition keyword_entry (name chunk : str) (i : Z) : result :=
  {| content := PStr chunk; filename := PStr name; chunk_index := PInt i;
     relevance_score := PFloat 0.5 |}.

(** The turn that [generate_response] records. *)
Definition turn_of (prompt answer : str) (used : bool) : Llm.turn :=
  {| Llm.user := prompt; Llm.assistant := answer; Llm.context_used := used |}.

(** A chunk of at most [cs] characters taken from [text]. *)
Definition fits (cs : Z) (text c : str) : Prop :=
  len c <= cs /\ substring_of c text.

End MoreVocabulary.

(* ================================================================== *)
(** * Properties *)

(** ** Facts about the Python string operations *)

Module PyFacts.
Import Py Vocabulary.

Lemma len_nonneg {A} (s : list A) : 0 <= len s.
Proof. unfold len. lia. Qed.

Lemma len_app {A} (s t : list A) : len (s ++ t) = len s + len t.
Proof. unfold len. rewrite length_app. lia. Qed.

Lemma adjust_index_inside (n i : Z) : 0 <= i <= n -> adjust_index n i = i.
Proof.
  intros H. unfold adjust_index.
  destruct (Z.ltb_spec i 0); lia.
Qed.

Lemma adjust_index_beyond (n i : Z) : 0 <= n <= i -> adjust_index n i = n.
Proof.
  intros H. unfold adjust_index.
  destruct (Z.ltb_spec i 0); lia.
Qed.

Lemma adjust_index_range (n i : Z) : 0 <= n -> 0 <= adjust_index n i <= n.
Proof.
  intros H. unfold adjust_index.
  destruct (Z.ltb_spec i 0); lia.
Qed.

(** A slice with both ends inside the string, as [firstn] of [skipn]. *)
Lemma slice_inside {A} (s : list A) (a b : Z) :
  0 <= a <= len s -> 0 <= b <= len s ->
  slice s a b = firstn (Z.to_nat (b - a)) (skipn (Z.to_nat a) s).
Proof.
  intros Ha Hb. unfold slice.
  rewrite !adjust_index_inside by assumption. reflexivity.
Qed.

Lemma slice_beyond {A} (s : list A) (a b : Z) :
  0 <= a -> len s <= b -> slice s a b = slice s a (len s).
Proof.
  intros Ha Hb. unfold slice.
  rewrite (adjust_index_beyond _ b) by (pose proof (len_nonneg s); lia).
  rewrite (adjust_index_inside _ (len s)) by (pose proof (len_nonneg s); lia).
  reflexivity.
Qed.

Lemma len_slice {A} (s : list A) (a b : Z) :
  0 <= a <= b -> b <= len s -> len (slice s a b) = b - a.
Proof.
  intros Ha Hb. rewrite slice_inside by lia.
  unfold len in *. rewrite length_firstn, length_skipn. lia.
Qed.

(** [s[a:b][c:d] = s[a+c:a+d]] when every index is in range. *)
Lemma slice_slice {A} (s : list A) (a b c d : Z) :
  0 <= a <= b -> b <= len s -> 0 <= c <= d -> d <= b - a ->
  slice (slice s a b) c d = slice s (a + c) (a + d).
Proof.
  intros Ha Hb Hc Hd.
  rewrite (slice_inside (slice s a b))
    by (rewrite len_slice by lia; lia).
  rewrite !slice_inside by lia.
  rewrite skipn_firstn_comm, firstn_firstn, skipn_skipn.
  f_equal; [ | f_equal ]; lia.
Qed.

Lemma slice_all {A} (s : list A) : slice s 0 (len s) = s.
Proof.
  pose proof (len_nonneg s).
  rewrite slice_inside by lia. cbn [Z.to_nat skipn].
  rewrite Z.sub_0_r. unfold len. rewrite Nat2Z.id. apply firstn_all.
Qed.

(** A negative start counts from the end: [s[-k:b] = s[len(s)-k:b]]. *)
Lemma slice_from_end {A} (s : list A) (a b : Z) :
  - len s <= a < 0 -> slice s a b = slice s (a + len s) b.
Proof.
  intros H. unfold slice.
  replace (adjust_index (len s) a) with (a + len s)
    by (unfold adjust_index; destruct (Z.ltb_spec a 0); lia).
  rewrite (adjust_index_inside _ (a + len s)) by lia.
  reflexivity.
Qed.

Lemma In_slice {A} (s : list A) (a b : Z) (x : A) :
  In x (slice s a b) -> In x s.
Proof.
  unfold slice. intros H.
  set (lo := Z.to_nat (adjust_index (len s) a)) in *.
  set (n := Z.to_nat _) in H.
  rewrite <- (firstn_skipn lo s). apply in_or_app. right.
  rewrite <- (firstn_skipn n (skipn lo s)). apply in_or_app. left. exact H.
Qed.

Lemma rindex_absent (c : ascii) (l : str) : ~ In c l -> rindex c l = -1.
Proof.
  induction l as [ | x l IH ]; intros H; cbn [rindex]; [ reflexivity | ].
  rewrite IH by (intros Hin; apply H; right; exact Hin).
  cbn. destruct (Ascii.eqb_spec x c) as [ -> | ]; [ | reflexivity ].
  exfalso. apply H. left. reflexivity.
Qed.

Lemma rfind_absent (s : str) (c : ascii) (a b : Z) :
  ~ In c s -> rfind s c a b = -1.
Proof.
  intros H. unfold rfind.
  rewrite rindex_absent; [ reflexivity | ].
  intros Hin. apply H. eapply In_slice; eassumption.
Qed.

(** *** Trimming *)

Lemma lstrip_head_ok (s : str) : head_ok (lstrip s).
Proof.
  induction s as [ | x s IH ]; cbn; [ exact I | ].
  destruct (isspace x) eqn:E; [ exact IH | exact E ].
Qed.

Lemma lstrip_fixed (s : str) : head_ok s -> lstrip s = s.
Proof.
  destruct s as [ | x s ]; cbn; [ reflexivity | ].
  intros ->. reflexivity.
Qed.

Lemma lstrip_suffix (s : str) : exists w, s = w ++ lstrip s.
Proof.
  induction s as [ | x s [w IH] ]; cbn.
  - exists []. reflexivity.
  - destruct (isspace x).
    + exists (x :: w). cbn. f_equal. exact IH.
    + exists []. reflexivity.
Qed.

Lemma rstrip_prefix (s : str) : exists w, s = rstrip s ++ w.
Proof.
  unfold rstrip. destruct (lstrip_suffix (rev s)) as [w H].
  exists (rev w).
  rewrite <- rev_app_distr, <- H, rev_involutive. reflexivity.
Qed.

Lemma rstrip_head_ok (s : str) : head_ok s -> head_ok (rstrip s).
Proof.
  intros H. destruct (rstrip_prefix s) as [w E].
  destruct (rstrip s) as [ | x r ]; [ exact I | ].
  rewrite E in H. exact H.
Qed.

Lemma rstrip_idempotent (s : str) : rstrip (rstrip s) = rstrip s.
Proof.
  unfold rstrip. rewrite rev_involutive.
  rewrite lstrip_fixed by apply lstrip_head_ok. reflexivity.
Qed.

Lemma strip_idempotent (s : str) : strip (strip s) = strip s.
Proof.
  unfold strip.
  rewrite (lstrip_fixed (rstrip (lstrip s)))
    by (apply rstrip_head_ok, lstrip_head_ok).
  apply rstrip_idempotent.
Qed.

Lemma truthy_true {A} (s : list A) : truthy s = true <-> s <> [].
Proof. destruct s; cbn; split; congruence. Qed.

End PyFacts.

(** ** The chunker *)

Module ChunkerFacts.
Import Py PyFacts Vocabulary Chunker Inputs.

Lemma while_loop_step (fuel : nat) (text : str) (cs ov : Z) (st : loop_state) :
  start st < len text ->
  while_loop (S fuel) text cs ov st
  = while_loop fuel text cs ov (loop_body text cs ov st).
Proof.
  intros H. cbn [while_loop].
  apply Z.ltb_lt in H. rewrite H. reflexivity.
Qed.

Lemma while_loop_exit (fuel : nat) (text : str) (cs ov : Z) (st : loop_state) :
  len text <= start st ->
  while_loop (S fuel) text cs ov st = Some (chunks st).
Proof.
  intros H. cbn [while_loop].
  apply Z.ltb_ge in H. rewrite H. reflexivity.
Qed.

(** A state that the body maps to itself, with the loop condition true,
    is never left. *)
Lemma while_loop_stuck (fuel : nat) (text : str) (cs ov : Z) (st : loop_state) :
  start st < len text ->
  loop_body text cs ov st = st ->
  while_loop fuel text cs ov st = None.
Proof.
  intros Hlt Hfix. induction fuel as [ | fuel IH ]; [ reflexivity | ].
  rewrite while_loop_step by exact Hlt. rewrite Hfix. exact IH.
Qed.

(** C1 (the code at the failing input).  With the default parameters
    (chunk_size 1000, overlap 200 < 1000) and the 1004-character text
    "Hi. aaa...a", [chunk_text] never returns: the first window is cut after
    the "." at index 2, so [start] becomes 3 - 200 = -197; from a negative
    [start] every [rfind] gives -1, which is greater than [start], so [end]
    becomes 0 and [start] becomes -200, for ever.  No amount of fuel lets
    the loop finish. *)
Theorem chunk_text_never_returns :
  forall fuel : nat,
    chunk_text fuel stuck_text default_chunk_size default_overlap = None.
Proof.
  intros fuel. unfold chunk_text.
  assert (E : (len stuck_text <=? default_chunk_size) = false)
    by (vm_compute; reflexivity).
  rewrite E. clear E.
  set (st1 := {| start := -197; chunks := [of_string "Hi."] |}).
  set (st2 := {| start := -200; chunks := [of_string "Hi."] |}).
  assert (E1 : loop_body stuck_text default_chunk_size default_overlap
                 {| start := 0; chunks := [] |} = st1)
    by (vm_compute; reflexivity).
  assert (E2 : loop_body stuck_text default_chunk_size default_overlap st1 = st2)
    by (vm_compute; reflexivity).
  assert (E3 : loop_body stuck_text default_chunk_size default_overlap st2 = st2)
    by (vm_compute; reflexivity).
  assert (L : len stuck_text = 1004) by (vm_compute; reflexivity).
  destruct fuel as [ | fuel ]; [ reflexivity | ].
  rewrite while_loop_step by (rewrite L; cbn; lia). rewrite E1.
  destruct fuel as [ | fuel ]; [ reflexivity | ].
  rewrite while_loop_step by (rewrite L; cbn; lia). rewrite E2.
  apply while_loop_stuck; [ rewrite L; cbn; lia | exact E3 ].
Qed.

(** *** Trimming of the chunks cut by the loop *)

Lemma loop_body_trimmed (text : str) (cs ov : Z) (st : loop_state) :
  Forall trimmed_nonempty (chunks st) ->
  Forall trimmed_nonempty (chunks (loop_body text cs ov st)).
Proof.
  intros H. unfold loop_body. cbn [chunks].
  destruct (truthy _) eqn:E; [ | exact H ].
  apply Forall_app. split; [ exact H | ].
  constructor; [ | constructor ].
  split; [ apply truthy_true; exact E | apply strip_idempotent ].
Qed.

Lemma iterate_trimmed (n : nat) (text : str) (cs ov : Z) (st : loop_state) :
  Forall trimmed_nonempty (chunks st) ->
  Forall trimmed_nonempty (chunks (iterate n text cs ov st)).
Proof.
  revert st. induction n as [ | n IH ]; intros st H; cbn [iterate].
  - exact H.
  - apply IH, loop_body_trimmed, H.
Qed.

Lemma while_loop_trimmed (fuel : nat) (text : str) (cs ov : Z)
    (st : loop_state) (out : list str) :
  Forall trimmed_nonempty (chunks st) ->
  while_loop fuel text cs ov st = Some out ->
  Forall trimmed_nonempty out.
Proof.
  revert st. induction fuel as [ | fuel IH ]; intros st H E; cbn in E.
  - discriminate.
  - destruct (start st <? len text).
    + eapply IH; [ | exact E ]. apply loop_body_trimmed, H.
    + injection E as <-. exact H.
Qed.

(** C4, as the claim states it, fails: a short text is returned as it is,
    neither trimmed nor dropped when blank. *)
Lemma chunk_text_short_is_not_trimmed :
  chunk_text 1 padded default_chunk_size default_overlap
    <> Some [strip padded]
  /\ chunk_text 1 blank default_chunk_size default_overlap <> Some [].
Proof. split; vm_compute; discriminate. Qed.

(** C4 (amended).  A text with [len text <= chunk_size] comes back as the
    one-element list holding the text itself, unchanged (hence equal to the
    trimmed input exactly when the input is already trimmed).  On the
    sliding-window path every chunk is trimmed and non-empty: after any
    number of iterations, and in the list returned. *)
Theorem chunk_text_short_unchanged_long_trimmed
    (text : str) (chunk_size overlap : Z) :
  (len text <= chunk_size ->
     forall fuel, chunk_text fuel text chunk_size overlap = Some [text])
  /\ (forall n,
        Forall trimmed_nonempty
          (chunks (iterate n text chunk_size overlap init_state)))
  /\ (chunk_size < len text ->
      forall fuel out,
        chunk_text fuel text chunk_size overlap = Some out ->
        Forall trimmed_nonempty out).
Proof.
  split; [ | split ].
  - intros H fuel. unfold chunk_text.
    apply Z.leb_le in H. rewrite H. reflexivity.
  - intros n. apply iterate_trimmed. constructor.
  - intros H fuel out E. unfold chunk_text in E.
    apply Z.leb_gt in H. rewrite H in E.
    eapply while_loop_trimmed; [ | exact E ]. constructor.
Qed.

Lemma chunk_text_short_unchanged_long_trimmed_witness :
  chunk_text 0 padded 1000 200 = Some [padded]
  /\ Forall trimmed_nonempty
       [strip (slice plain_2500 0 1000); strip (slice plain_2500 800 1800);
        strip (slice plain_2500 1600 2600); strip (slice plain_2500 2400 3400)].
Proof.
  split.
  - apply (proj1 (chunk_text_short_unchanged_long_trimmed padded 1000 200)).
    vm_compute. discriminate.
  - apply (proj2 (proj2
             (chunk_text_short_unchanged_long_trimmed plain_2500 1000 200))
             ltac:(vm_compute; reflexivity) 5%nat).
    vm_compute. reflexivity.
Defined.

(** *** The windows of a text without sentence terminators *)

Lemma windows_start_only (fuel : nat) (text : str) (cs ov : Z)
    (st st' : loop_state) :
  start st = start st' ->
  windows fuel text cs ov st = windows fuel text cs ov st'.
Proof.
  revert st st'. induction fuel as [ | fuel IH ]; intros st st' E;
    cbn [windows]; [ reflexivity | ].
  rewrite E. destruct (start st' <? len text); [ | reflexivity ].
  f_equal. apply IH. unfold loop_body. cbn [start]. rewrite E. reflexivity.
Qed.

Lemma windows_done (fuel : nat) (text : str) (cs ov : Z) (st : loop_state) :
  len text <= start st -> windows fuel text cs ov st = [].
Proof.
  intros H. destruct fuel as [ | fuel ]; cbn [windows]; [ reflexivity | ].
  apply Z.ltb_ge in H. rewrite H. reflexivity.
Qed.

Lemma window_end_plain (text : str) (cs k : Z) :
  no_terminator text -> -1 <= k -> window_end text cs k = k + cs.
Proof.
  intros (Hd & He & Hq) Hk. unfold window_end.
  destruct (k + cs <? len text); [ | reflexivity ].
  rewrite !rfind_absent by assumption.
  change (Z.max (Z.max (-1) (-1)) (-1)) with (-1).
  destruct (Z.gtb_spec (-1) k); [ lia | reflexivity ].
Qed.

Lemma windows_plain_step (fuel : nat) (text : str) (cs ov k k' : Z) :
  no_terminator text -> 0 <= k < len text -> k' = k + cs - ov ->
  windows (S fuel) text cs ov (at_offset k)
  = (k, k + cs) :: windows fuel text cs ov (at_offset k').
Proof.
  intros Hp Hk ->. cbn [windows at_offset start].
  replace (k <? len text) with true by (symmetry; apply Z.ltb_lt; lia).
  rewrite window_end_plain by (assumption || lia).
  f_equal. apply windows_start_only.
  unfold loop_body. cbn [start at_offset].
  rewrite window_end_plain by (assumption || lia). reflexivity.
Qed.

(** Without sentence terminators the raw cut is taken every time, the
    window advances by [chunk_size - overlap], and the loop ends. *)
Lemma while_loop_plain_terminates (fuel : nat) (text : str) (cs ov : Z)
    (st : loop_state) :
  no_terminator text -> ov < cs -> 0 <= start st ->
  (Z.to_nat (len text - start st) < fuel)%nat ->
  exists out, while_loop fuel text cs ov st = Some out.
Proof.
  intros Hp Ho. revert st.
  induction fuel as [ | fuel IH ]; intros st Hs Hf; [ lia | ].
  destruct (Z.lt_ge_cases (start st) (len text)) as [ Hlt | Hge ].
  - rewrite while_loop_step by exact Hlt.
    assert (E : start (loop_body text cs ov st) = start st + cs - ov).
    { unfold loop_body. cbn [start].
      rewrite window_end_plain by (assumption || lia). reflexivity. }
    apply IH; rewrite E; lia.
  - rewrite while_loop_exit by exact Hge. eauto.
Qed.

Lemma chunk_text_plain_terminates (text : str) (cs ov : Z) :
  no_terminator text -> ov < cs ->
  exists out, chunk_text (S (Z.to_nat (len text))) text cs ov = Some out.
Proof.
  intros Hp Ho. unfold chunk_text.
  destruct (len text <=? cs); [ eauto | ].
  apply while_loop_plain_terminates; cbn [start]; try assumption; lia.
Qed.

(** When the loop leaves within the fuel, the list returned is the list
    of the non-empty trimmed windows. *)
Lemma while_loop_of_windows (fuel : nat) (text : str) (cs ov : Z)
    (st : loop_state) :
  (List.length (windows fuel text cs ov st) < fuel)%nat ->
  while_loop fuel text cs ov st
  = Some (chunks st ++ chunks_of text (windows fuel text cs ov st)).
Proof.
  revert st. induction fuel as [ | fuel IH ]; intros st H; [ inversion H | ].
  cbn [while_loop windows] in *.
  destruct (start st <? len text).
  - cbn [List.length] in H. rewrite IH by lia.
    f_equal. unfold loop_body at 1. cbn [chunks].
    unfold chunks_of. cbn [map filter fst snd].
    destruct (truthy _); [ rewrite <- app_assoc | ]; reflexivity.
  - unfold chunks_of. cbn. rewrite app_nil_r. reflexivity.
Qed.

(** C5.  For a 2500-character text without ".", "!" or "?", and the
    default sizes, the loop cuts exactly the windows starting at 0, 800,
    1600 and 2400 (a step of 800 each time) and returns their non-empty
    trimmed contents; the last 200 characters of the first and of the
    second window are the first 200 of the next one; the final window is
    the last 100 characters of the third. *)
Theorem chunk_text_2500_plain (text : str) (n : nat) :
  len text = 2500 -> no_terminator text ->
  let w1 := slice text 0 1000 in
  let w2 := slice text 800 1800 in
  let w3 := slice text 1600 2600 in
  let w4 := slice text 2400 3400 in
  windows (5 + n) text 1000 200 init_state
    = [(0, 1000); (800, 1800); (1600, 2600); (2400, 3400)]
  /\ chunk_text (5 + n) text 1000 200
     = Some (filter truthy [strip w1; strip w2; strip w3; strip w4])
  /\ (slice w1 (-200) (len w1) = slice w2 0 200 /\ len (slice w2 0 200) = 200)
  /\ (slice w2 (-200) (len w2) = slice w3 0 200 /\ len (slice w3 0 200) = 200)
  /\ (slice w3 (-100) (len w3) = w4 /\ len w4 = 100).
Proof.
  intros L Hp w1 w2 w3 w4.
  assert (W : windows (5 + n) text 1000 200 init_state
              = [(0, 1000); (800, 1800); (1600, 2600); (2400, 3400)]).
  { change (5 + n)%nat with (S (S (S (S (S n))))).
    change init_state with (at_offset 0).
    rewrite (windows_plain_step _ text 1000 200 0 800) by (assumption || lia).
    rewrite (windows_plain_step _ text 1000 200 800 1600) by (assumption || lia).
    rewrite (windows_plain_step _ text 1000 200 1600 2400) by (assumption || lia).
    rewrite (windows_plain_step _ text 1000 200 2400 3200) by (assumption || lia).
    rewrite windows_done by (cbn [at_offset start]; lia).
    reflexivity. }
  split; [ exact W | ].
  split.
  { unfold chunk_text.
    replace (len text <=? 1000) with false by (symmetry; apply Z.leb_gt; lia).
    fold init_state.
    rewrite while_loop_of_windows by (rewrite W; cbn [List.length]; lia).
    rewrite W. reflexivity. }
  assert (E3 : w3 = slice text 1600 2500)
    by (subst w3; rewrite slice_beyond by lia; rewrite L; reflexivity).
  assert (E4 : w4 = slice text 2400 2500)
    by (subst w4; rewrite slice_beyond by lia; rewrite L; reflexivity).
  assert (L1 : len w1 = 1000) by (subst w1; rewrite len_slice; lia).
  assert (L2 : len w2 = 1000) by (subst w2; rewrite len_slice; lia).
  assert (L3 : len w3 = 900) by (rewrite E3, len_slice; lia).
  split; [ | split ].
  - rewrite slice_from_end, L1 by lia. subst w1 w2.
    rewrite !slice_slice by lia. rewrite len_slice by lia.
    split; reflexivity.
  - rewrite slice_from_end, L2 by lia. rewrite E3. subst w2.
    rewrite !slice_slice by lia. rewrite len_slice by lia.
    split; reflexivity.
  - rewrite slice_from_end, L3 by lia. rewrite E4, E3.
    rewrite slice_slice by lia. rewrite len_slice by lia.
    split; reflexivity.
Qed.

Lemma chunk_text_2500_plain_witness :
  chunk_text 5 plain_2500 1000 200
  = Some (filter truthy
            [strip (slice plain_2500 0 1000); strip (slice plain_2500 800 1800);
             strip (slice plain_2500 1600 2600);
             strip (slice plain_2500 2400 3400)]).
Proof.
  refine (proj1 (proj2 (chunk_text_2500_plain plain_2500 0 _ _))).
  - vm_compute. reflexivity.
  - unfold no_terminator, plain_2500.
    repeat split; intros H; apply repeat_spec in H; discriminate H.
Defined.

End ChunkerFacts.

(** ** LIKE patterns *)

Module LikeFacts.
Import Py PyText Sqlite SpecWords Vocabulary.

Lemma like_nil (text : str) : like [] text = true <-> text = [].
Proof. destruct text; cbn; split; congruence. Qed.

Lemma like_percent_unfold (pattern text : str) :
  like ("%"%char :: pattern) text
  = like pattern text
    || match text with
       | [] => false
       | _ :: text' => like ("%"%char :: pattern) text'
       end.
Proof. destruct text; reflexivity. Qed.

Lemma like_literal_unfold (p : ascii) (pattern text : str) :
  p <> "%"%char -> p <> "_"%char ->
  like (p :: pattern) text
  = match text with
    | [] => false
    | c :: text' => like_char p c && like pattern text'
    end.
Proof.
  intros H1 H2. cbn [like].
  apply Ascii.eqb_neq in H1. apply Ascii.eqb_neq in H2.
  rewrite H1, H2. reflexivity.
Qed.

(** "%" followed by a pattern: the pattern matches some suffix. *)
Lemma like_percent (pattern text : str) :
  like ("%"%char :: pattern) text = true
  <-> exists before after, text = before ++ after /\ like pattern after = true.
Proof.
  induction text as [ | c text IH ]; rewrite like_percent_unfold.
  - rewrite orb_false_r. split.
    + intros H. exists [], []. auto.
    + intros (before & after & E & H).
      symmetry in E. apply app_eq_nil in E. destruct E as [_ ->]. exact H.
  - rewrite orb_true_iff, IH. split.
    + intros [H | (before & after & -> & H)].
      * exists [], (c :: text). auto.
      * exists (c :: before), after. auto.
    + intros (before & after & E & H).
      destruct before as [ | b before ]; cbn in E.
      * left. rewrite E. exact H.
      * right. injection E as _ ->. eauto.
Qed.

(** A token without wildcards followed by a pattern: a prefix equal to the
    token, then the pattern. *)
Lemma like_token (t pattern text : str) :
  literal t ->
  like (t ++ pattern) text = true
  <-> exists u after,
        text = u ++ after /\ like_equal t u /\ like pattern after = true.
Proof.
  revert text. induction t as [ | p t IH ]; intros text [H1 H2]; cbn [app].
  - split.
    + intros H. exists [], text. repeat split; [ constructor | exact H ].
    + intros (u & after & -> & Hu & H). inversion Hu. exact H.
  - assert (Hl : literal t) by (split; intros Hin; [ apply H1 | apply H2 ]; right; exact Hin).
    rewrite like_literal_unfold
      by (intros ->;
          first [ apply H1; left; reflexivity | apply H2; left; reflexivity ]).
    destruct text as [ | c text ].
    + split; [ discriminate | ].
      intros (u & after & E & Hu & _). inversion Hu; subst. discriminate E.
    + rewrite andb_true_iff, (IH text Hl). split.
      * intros (Hc & u & after & -> & Hu & H).
        exists (c :: u), after. repeat split; [ constructor | ]; assumption.
      * intros (u & after & E & Hu & H).
        inversion Hu as [ | p' c' t' u' Hc Hu' ]; subst.
        cbn in E. injection E as -> ->.
        split; [ exact Hc | ]. exists u', after. auto.
Qed.

Lemma like_percent_only (text : str) : like (of_string "%") text = true.
Proof.
  apply like_percent. exists text, []. rewrite app_nil_r. split; reflexivity.
Qed.

Lemma pattern_of_cons (t : str) (rest : list str) :
  pattern_of (t :: rest)
  = "%"%char :: t ++ match rest with
                     | [] => of_string "%"
                     | _ :: _ => pattern_of rest
                     end.
Proof.
  unfold pattern_of. cbn [join of_string list_ascii_of_string app].
  destruct rest as [ | t' rest ]; [ reflexivity | ].
  rewrite <- !app_assoc. reflexivity.
Qed.

Lemma like_pattern_of (tokens : list str) (text : str) :
  Forall literal tokens ->
  like (pattern_of tokens) text = true <-> like_in_sequence tokens text.
Proof.
  intros Hl. revert text.
  induction Hl as [ | t rest Ht Hrest IH ]; intros text.
  - split; [ intros _; exact I | intros _ ].
    apply like_percent. exists text, []. rewrite app_nil_r.
    split; [ reflexivity | apply like_percent_only ].
  - rewrite pattern_of_cons, like_percent. cbn [like_in_sequence]. split.
    + intros (before & after & -> & H).
      apply (like_token t _ after Ht) in H.
      destruct H as (u & after' & -> & Hu & H).
      exists before, u, after'. repeat split; [ exact Hu | ].
      destruct rest; [ exact I | apply IH; exact H ].
    + intros (before & u & after & -> & Hu & H).
      exists before, (u ++ after). split; [ reflexivity | ].
      apply (like_token t _ _ Ht). exists u, after.
      repeat split; [ exact Hu | ].
      destruct rest; [ apply like_percent_only | apply IH; exact H ].
Qed.

(** *** Case folding *)

Ltac each_char c :=
  destruct c as [[] [] [] [] [] [] [] []].

Lemma lower_char_not_upper (c : ascii) : is_ascii_upper (lower_char c) = false.
Proof. each_char c; reflexivity. Qed.

Lemma sql_lower_char_not_upper (c : ascii) :
  is_ascii_upper (sql_lower_char c) = false.
Proof. each_char c; reflexivity. Qed.

Lemma lower_char_percent (c : ascii) :
  lower_char c = "%"%char -> c = "%"%char.
Proof. each_char c; cbv; intros H; solve [ reflexivity | discriminate H ]. Qed.

Lemma lower_char_underscore (c : ascii) :
  lower_char c = "_"%char -> c = "_"%char.
Proof. each_char c; cbv; intros H; solve [ reflexivity | discriminate H ]. Qed.

Lemma lower_char_space (c : ascii) : isspace (lower_char c) = isspace c.
Proof. each_char c; reflexivity. Qed.

Lemma sql_lower_char_fixed (c : ascii) :
  is_ascii_upper c = false -> sql_lower_char c = c.
Proof. unfold sql_lower_char. intros ->. reflexivity. Qed.

Lemma folded_lower (s : str) : folded (lower s).
Proof.
  unfold folded, lower. apply Forall_forall. intros c H.
  apply in_map_iff in H. destruct H as (x & <- & _).
  apply lower_char_not_upper.
Qed.

Lemma folded_sql_lower (s : str) : folded (sql_lower s).
Proof.
  unfold folded, sql_lower. apply Forall_forall. intros c H.
  apply in_map_iff in H. destruct H as (x & <- & _).
  apply sql_lower_char_not_upper.
Qed.

Lemma folded_app (s t : str) : folded (s ++ t) <-> folded s /\ folded t.
Proof. apply Forall_app. Qed.

(** On folded strings LIKE's comparison is equality. *)
Lemma like_equal_folded (t u : str) :
  folded t -> folded u -> (like_equal t u <-> t = u).
Proof.
  intros Ht Hu. split.
  - intros H. induction H as [ | p c t u Hc H IH ]; [ reflexivity | ].
    inversion Ht; inversion Hu; subst.
    unfold like_char in Hc.
    rewrite !sql_lower_char_fixed in Hc by assumption.
    apply Ascii.eqb_eq in Hc. subst. f_equal. apply IH; assumption.
  - intros <-. induction t as [ | p t IH ]; constructor.
    + unfold like_char. apply Ascii.eqb_refl.
    + inversion Ht. apply IH; assumption.
Qed.

Lemma like_in_sequence_folded (tokens : list str) (text : str) :
  Forall folded tokens -> folded text ->
  like_in_sequence tokens text <-> tokens_in_sequence tokens text.
Proof.
  intros Hl. revert text.
  induction Hl as [ | t rest Ht Hrest IH ]; intros text Htext;
    cbn [like_in_sequence tokens_in_sequence]; [ reflexivity | ].
  split.
  - intros (before & u & after & -> & Hu & H).
    apply folded_app in Htext. destruct Htext as [_ Htext].
    apply folded_app in Htext. destruct Htext as [Hfu Hafter].
    apply like_equal_folded in Hu; [ subst u | assumption .. ].
    exists before, after. split; [ reflexivity | ].
    apply IH; assumption.
  - intros (before & after & -> & H).
    apply folded_app in Htext. destruct Htext as [_ Htext].
    apply folded_app in Htext. destruct Htext as [_ Hafter].
    exists before, t, after. repeat split.
    + apply like_equal_folded; [ assumption .. | reflexivity ].
    + apply IH; assumption.
Qed.

End LikeFacts.

(** ** Splitting a query into tokens *)

Module SplitFacts.
Import Py PyText Vocabulary LikeFacts.

Lemma split_from_chars (s cur t : str) (c : ascii) :
  In t (split_from cur s) -> In c t -> In c cur \/ In c s.
Proof.
  revert cur. induction s as [ | x s IH ]; intros cur Ht Hc; cbn in Ht.
  - destruct (truthy cur); [ | contradiction ].
    destruct Ht as [ <- | [] ]. left. apply in_rev. exact Hc.
  - destruct (isspace x).
    + destruct (truthy cur).
      * destruct Ht as [ <- | Ht ].
        -- left. apply in_rev. exact Hc.
        -- destruct (IH [] Ht Hc) as [ [] | H ]. right. right. exact H.
      * destruct (IH [] Ht Hc) as [ [] | H ]. right. right. exact H.
    + destruct (IH (x :: cur) Ht Hc) as [ [ <- | H ] | H ].
      * right. left. reflexivity.
      * left. exact H.
      * right. right. exact H.
Qed.

Lemma split_chars (s t : str) (c : ascii) :
  In t (split s) -> In c t -> In c s.
Proof.
  intros Ht Hc. destruct (split_from_chars s [] t c Ht Hc) as [ [] | H ].
  exact H.
Qed.

(** A query of whitespace only has no tokens. *)
Lemma split_blank (s : str) : forallb isspace s = true -> split s = [].
Proof.
  unfold split. induction s as [ | x s IH ]; cbn; [ reflexivity | ].
  intros H. apply andb_true_iff in H. destruct H as [-> H].
  cbn. apply IH, H.
Qed.

Lemma lower_blank (s : str) :
  forallb isspace s = true -> forallb isspace (lower s) = true.
Proof.
  unfold lower. induction s as [ | x s IH ]; cbn; [ reflexivity | ].
  intros H. apply andb_true_iff in H. destruct H as [Hx H].
  rewrite lower_char_space, Hx. cbn. apply IH, H.
Qed.

Lemma tokens_literal (query : str) :
  no_wildcard query -> Forall literal (split (lower query)).
Proof.
  intros [H1 H2]. apply Forall_forall. intros t Ht. split; intros Hc.
  - apply (split_chars _ _ _ Ht) in Hc. unfold lower in Hc.
    apply in_map_iff in Hc. destruct Hc as (x & E & Hx).
    apply lower_char_percent in E. subst x. exact (H1 Hx).
  - apply (split_chars _ _ _ Ht) in Hc. unfold lower in Hc.
    apply in_map_iff in Hc. destruct Hc as (x & E & Hx).
    apply lower_char_underscore in E. subst x. exact (H2 Hx).
Qed.

Lemma tokens_folded (query : str) : Forall folded (split (lower query)).
Proof.
  apply Forall_forall. intros t Ht. apply Forall_forall. intros c Hc.
  apply (split_chars _ _ _ Ht) in Hc.
  pose proof (folded_lower query) as F.
  exact (proj1 (Forall_forall _ _) F c Hc).
Qed.

End SplitFacts.

(** ** The tables *)

Module StoreFacts.
Import Py PyText Sqlite Vocabulary.

Lemma str_eqb_eq (a b : str) : str_eqb a b = true <-> a = b.
Proof.
  revert b. induction a as [ | x a IH ]; intros [ | y b ]; cbn;
    try (split; congruence).
  rewrite andb_true_iff, Ascii.eqb_eq, IH. split.
  - intros [-> ->]. reflexivity.
  - intros E. injection E as -> ->. auto.
Qed.

Lemma str_eqb_refl (a : str) : str_eqb a a = true.
Proof. apply str_eqb_eq. reflexivity. Qed.

Lemma store_wf_setup : store_wf (setup_database None).
Proof. split; cbn; constructor. Qed.

Lemma hash_known_iff (h : str) (docs : list document_row) :
  existsb (fun d => str_eqb (d_file_hash d) h) docs = true
  <-> In h (map d_file_hash docs).
Proof.
  rewrite existsb_exists, in_map_iff. split.
  - intros (d & Hd & E). apply str_eqb_eq in E. eauto.
  - intros (d & E & Hd). exists d. split; [ exact Hd | ].
    apply str_eqb_eq. exact E.
Qed.

Lemma select_id_by_hash_none (h : str) (tables : database) :
  select_id_by_hash h tables = None
  <-> ~ In h (map d_file_hash (documents tables)).
Proof.
  unfold select_id_by_hash.
  rewrite <- hash_known_iff.
  induction (documents tables) as [ | d docs IH ]; cbn.
  - split; [ intros _ H; discriminate H | reflexivity ].
  - destruct (str_eqb (d_file_hash d) h); cbn.
    + split; [ discriminate | intros H; exfalso; apply H; reflexivity ].
    + exact IH.
Qed.

Lemma select_id_by_hash_some (h : str) (tables : database) :
  In h (map d_file_hash (documents tables)) ->
  exists id, select_id_by_hash h tables = Some id.
Proof.
  intros H. destruct (select_id_by_hash h tables) as [ id | ] eqn:E.
  - exists id. reflexivity.
  - apply select_id_by_hash_none in E. contradiction.
Qed.

(** With unique fingerprints, a known fingerprint has exactly one row. *)
Lemma one_row_per_hash (h : str) (docs : list document_row) :
  NoDup (map d_file_hash docs) -> In h (map d_file_hash docs) ->
  List.length (filter (fun d => str_eqb (d_file_hash d) h) docs) = 1%nat.
Proof.
  induction docs as [ | d docs IH ]; cbn; intros N H; [ contradiction | ].
  inversion N as [ | x l Hnot N' ]; subst.
  destruct (str_eqb (d_file_hash d) h) eqn:E.
  - apply str_eqb_eq in E. subst h. cbn. f_equal.
    assert (Hn : existsb (fun x => str_eqb (d_file_hash x) (d_file_hash d)) docs
                 = false).
    { destruct (existsb _ docs) eqn:X; [ | reflexivity ].
      apply hash_known_iff in X. contradiction. }
    clear - Hn. induction docs as [ | y docs IH ]; [ reflexivity | ].
    cbn in *. apply orb_false_iff in Hn. destruct Hn as [-> Hn].
    apply IH, Hn.
  - destruct H as [ H | H ].
    + rewrite H, str_eqb_refl in E. discriminate E.
    + apply IH; assumption.
Qed.

Lemma ascending_snoc (l : list chunk_row) (c : chunk_row) :
  ascending l -> Forall (fun x => c_id x < c_id c) l -> ascending (l ++ [c]).
Proof.
  unfold ascending. induction l as [ | x l IH ]; cbn; intros S F.
  - repeat constructor.
  - inversion S; inversion F; subst. constructor.
    + apply IH; assumption.
    + apply Forall_app. split; [ assumption | ]. repeat constructor. assumption.
Qed.

(** Sorting an ascending list by id leaves it as it is. *)
Lemma order_by_id_ascending (l : list chunk_row) :
  ascending l -> order_by_id l = l.
Proof.
  unfold ascending, order_by_id. induction l as [ | x l IH ]; intros S;
    [ reflexivity | ].
  inversion S as [ | y m S' F ]; subst. cbn [fold_right].
  rewrite (IH S'). destruct l as [ | y l ]; [ reflexivity | ].
  cbn [insert_by_id]. inversion F; subst.
  replace (c_id x <? c_id y) with true by (symmetry; apply Z.ltb_lt; assumption).
  reflexivity.
Qed.

Lemma ascending_filter (f : chunk_row -> bool) (l : list chunk_row) :
  ascending l -> ascending (filter f l).
Proof.
  unfold ascending. induction l as [ | x l IH ]; cbn; intros S; [ constructor | ].
  inversion S as [ | y m S' F ]; subst.
  destruct (f x); [ | apply IH, S' ].
  constructor; [ apply IH, S' | ].
  apply Forall_forall. intros y Hy. apply filter_In in Hy.
  exact (proj1 (Forall_forall _ _) F y (proj1 Hy)).
Qed.

(** The JOIN finds exactly one document for a chunk of a well-formed
    store. *)
Lemma join_one (k : Z) (docs : list document_row) :
  NoDup (map d_id docs) -> In k (map d_id docs) ->
  exists d, filter (fun d => d_id d =? k) docs = [d]
            /\ In d docs /\ d_id d = k.
Proof.
  induction docs as [ | d docs IH ]; cbn; intros N H; [ contradiction | ].
  inversion N as [ | x l Hnot N' ]; subst.
  destruct (Z.eqb_spec (d_id d) k) as [ E | E ].
  - exists d. repeat split; auto.
    f_equal. subst k. clear - Hnot.
    induction docs as [ | y docs IH ]; [ reflexivity | ]. cbn in *.
    destruct (Z.eqb_spec (d_id y) (d_id d)) as [ E | _ ].
    + exfalso. apply Hnot. left. exact E.
    + apply IH. intros H. apply Hnot. right. exact H.
  - destruct H as [ H | H ]; [ contradiction | ].
    destruct (IH N' H) as (d' & F & I & K). exists d'. auto.
Qed.

Lemma NoDup_snoc {A} (l : list A) (x : A) :
  NoDup l -> ~ In x l -> NoDup (l ++ [x]).
Proof.
  induction l as [ | y l IH ]; cbn; intros N H.
  - repeat constructor. intros [].
  - inversion N as [ | z m Hy N' ]; subst. constructor.
    + intros Hin. apply in_app_or in Hin. destruct Hin as [ Hin | [ E | [] ] ].
      * contradiction.
      * apply H. left. symmetry. exact E.
    + apply IH; [ exact N' | ]. intros Hin. apply H. right. exact Hin.
Qed.

Lemma insert_document_spec (filename h ty : str) (n : Z)
    (tables tables' : database) (id : Z) :
  insert_document filename h ty n tables = Ok (id, tables') ->
  ~ In h (map d_file_hash (documents tables))
  /\ id = seq_documents tables + 1
  /\ documents tables'
     = documents tables
       ++ [ {| d_id := id; d_filename := filename; d_file_hash := h;
               d_file_type := ty; d_chunk_count := n |} ]
  /\ chunks tables' = chunks tables
  /\ seq_documents tables' = id
  /\ seq_chunks tables' = seq_chunks tables.
Proof.
  unfold insert_document. destruct (existsb _ _) eqn:E; [ discriminate | ].
  intros H. injection H as <- <-. cbn. repeat split.
  intros Hin. apply hash_known_iff in Hin. congruence.
Qed.

Lemma insert_document_wf (filename h ty : str) (n : Z)
    (tables tables' : database) (id : Z) :
  store_wf tables ->
  insert_document filename h ty n tables = Ok (id, tables') ->
  store_wf tables'.
Proof.
  intros W H. apply insert_document_spec in H.
  destruct H as (Hh & Hid & Hd & Hc & Hs & Hsc). destruct W.
  split; rewrite ?Hd, ?Hc, ?Hs, ?Hsc, ?map_app; cbn [map d_id d_file_hash].
  - apply NoDup_snoc; [ assumption | ].
    intros Hin. apply in_map_iff in Hin. destruct Hin as (d & E & Hin).
    pose proof (proj1 (Forall_forall _ _) wf_document_seq0 d Hin).
    cbn in *. lia.
  - apply NoDup_snoc; assumption.
  - apply Forall_app. split.
    + eapply Forall_impl; [ | exact wf_document_seq0 ]. cbn. intros; lia.
    + repeat constructor. cbn. lia.
  - assumption.
  - assumption.
  - eapply Forall_impl; [ | exact wf_owner0 ]. cbn. intros c Hin.
    apply in_or_app. left. exact Hin.
Qed.

Lemma insert_chunk_wf (document_id i : Z) (content : str) (tables : database) :
  store_wf tables ->
  In document_id (map d_id (documents tables)) ->
  store_wf (insert_chunk document_id i content tables).
Proof.
  intros W H. destruct W. split; cbn; try assumption.
  - apply ascending_snoc; [ assumption | ].
    eapply Forall_impl; [ | exact wf_chunk_seq0 ]. cbn. intros; lia.
  - apply Forall_app. split.
    + eapply Forall_impl; [ | exact wf_chunk_seq0 ]. cbn. intros; lia.
    + repeat constructor. cbn. lia.
  - apply Forall_app. split; [ assumption | ]. repeat constructor. exact H.
Qed.

Lemma clear_wf (tables : database) :
  store_wf tables -> store_wf (delete_from_documents (delete_from_chunks tables)).
Proof. intros _. split; cbn; constructor. Qed.

End StoreFacts.

(** ** Ingestion *)

Module IngestionFacts.
Import Py PyText Sqlite Processor Vocabulary StoreFacts.

Section WithLibraries.

Context {Index Observer : Type}.
Variable L : libraries Index.

Lemma processor_eta (p : processor Index) :
  {| db := db p; chroma := chroma p |} = p.
Proof. destruct p. reflexivity. Qed.

Lemma insert_chunks_documents (id i : Z) (cs : list str) (tables : database) :
  documents (insert_chunks id i cs tables) = documents tables.
Proof.
  revert i tables. induction cs as [ | c cs IH ]; intros i tables; cbn;
    [ reflexivity | ].
  rewrite IH. reflexivity.
Qed.

Lemma insert_chunks_wf (id i : Z) (cs : list str) (tables : database) :
  store_wf tables -> In id (map d_id (documents tables)) ->
  store_wf (insert_chunks id i cs tables).
Proof.
  revert i tables. induction cs as [ | c cs IH ]; intros i tables W H; cbn;
    [ exact W | ].
  apply IH; [ apply insert_chunk_wf; assumption | exact H ].
Qed.

(** The contents of the chunk rows after the insertion loop. *)
Lemma insert_chunks_contents (id i : Z) (cs : list str) (tables : database) :
  map c_content (chunks (insert_chunks id i cs tables))
  = map c_content (chunks tables) ++ cs.
Proof.
  revert i tables. induction cs as [ | c cs IH ]; intros i tables; cbn.
  - rewrite app_nil_r. reflexivity.
  - rewrite IH. cbn. rewrite map_app, <- app_assoc. reflexivity.
Qed.

Lemma process_document_cases (fuel : nat) (path : str)
    (cb : option (callback Observer)) (p p' : processor Index)
    (w w' : Observer) (b : bool) :
  process_document L fuel path cb p w = Some (b, p', w') ->
  failed p p' b \/ skipped L path p p' b w w' \/ stored L fuel path p p' b.
Proof.
  unfold process_document, calculate_file_hash. cbv beta zeta.
  cbn [close connect working committed execute commit].
  rewrite !processor_eta.
  intros H.
  destruct (file_at L path) as [ | | bytes ] eqn:Ef;
    [ injection H as <- <- <-; left; split; reflexivity .. | ].
  destruct (select_id_by_hash _ (db p)) as [ id | ] eqn:Es.
  { injection H as <- <- <-. right. left.
    repeat split. exists bytes, id. auto. }
  destruct (notify cb _ w) as [ w1 | w1 ];
    [ | injection H as <- <- <-; left; split; reflexivity ].
  destruct (extract_text L _ bytes) as [ [ text | e ] | ] eqn:Ee;
    [ | injection H as <- <- <-; left; split; reflexivity .. ].
  destruct (truthy (strip text)) eqn:Et; cbn [negb] in H;
    [ | injection H as <- <- <-; left; split; reflexivity ].
  destruct (notify cb _ w1) as [ w2 | w2 ];
    [ | injection H as <- <- <-; left; split; reflexivity ].
  destruct (Chunker.chunk_text fuel text _ _) as [ cs | ] eqn:Ec;
    [ | discriminate H ].
  destruct (insert_document _ _ _ _ (db p)) as [ [ id tables ] | e ] eqn:Ei;
    [ | injection H as <- <- <-; left; split; reflexivity ].
  right. right. exists bytes, text, cs, id, tables.
  destruct (notify cb _ w2) as [ w3 | w3 ]; injection H as <- <- <-;
    cbn [db chroma]; repeat split; auto.
Qed.

(** A fingerprint that is in the table ends the call at once. *)
Lemma process_document_known (fuel : nat) (path : str)
    (cb : option (callback Observer)) (p : processor Index) (w : Observer)
    (bytes : list Byte.byte) :
  file_at L path = File bytes ->
  In (md5_hexdigest L bytes) (map d_file_hash (documents (db p))) ->
  process_document L fuel path cb p w = Some (true, p, w).
Proof.
  intros Ef Hin. unfold process_document, calculate_file_hash.
  cbv beta zeta. cbn [close connect working committed].
  rewrite Ef. destruct (select_id_by_hash_some _ _ Hin) as [ id -> ].
  rewrite processor_eta. reflexivity.
Qed.

Lemma process_document_wf (fuel : nat) (path : str)
    (cb : option (callback Observer)) (p p' : processor Index)
    (w w' : Observer) (b : bool) :
  store_wf (db p) ->
  process_document L fuel path cb p w = Some (b, p', w') ->
  store_wf (db p').
Proof.
  intros W H. apply process_document_cases in H.
  destruct H as [ [_ ->] | [ (_ & -> & _) | H ] ]; [ exact W .. | ].
  destruct H as (bytes & text & cs & id & tables & _ & _ & _ & _ & _ & Hi & -> & _).
  apply insert_chunks_wf.
  - eapply insert_document_wf; eassumption.
  - apply insert_document_spec in Hi.
    destruct Hi as (_ & _ & -> & _). rewrite map_app. apply in_or_app.
    right. left. reflexivity.
Qed.

(** After a call that returned [True] the fingerprint of the file is in
    the table. *)
Lemma process_document_true_known (fuel : nat) (path : str)
    (cb : option (callback Observer)) (p p' : processor Index)
    (w w' : Observer) (bytes : list Byte.byte) :
  file_at L path = File bytes ->
  process_document L fuel path cb p w = Some (true, p', w') ->
  In (md5_hexdigest L bytes) (map d_file_hash (documents (db p'))).
Proof.
  intros Ef H. apply process_document_cases in H.
  destruct H as [ [H _] | [ (_ & -> & _ & bytes' & id & Ef' & Es) | H ] ].
  - discriminate H.
  - rewrite Ef in Ef'. injection Ef' as <-.
    destruct (in_dec (list_eq_dec ascii_dec) (md5_hexdigest L bytes)
                (map d_file_hash (documents (db p)))) as [ Hin | Hn ];
      [ exact Hin | ].
    apply select_id_by_hash_none in Hn. congruence.
  - destruct H as (bytes' & text & cs & id & tables & Ef' & _ & _ & _ & _ & Hi & -> & _).
    rewrite Ef in Ef'. injection Ef' as <-.
    rewrite insert_chunks_documents.
    apply insert_document_spec in Hi. destruct Hi as (_ & _ & -> & _).
    rewrite map_app. apply in_or_app. right. left. reflexivity.
Qed.

End WithLibraries.

Section Claims.

Context {Index Observer : Type}.
Variable L : libraries Index.

(** C3.  Once a call on a file has returned [True] from a well-formed
    store, the table holds exactly one document row with the fingerprint of
    the file's bytes; and any further call on a file with the same bytes
    (any path, any callback, any fuel, any PDF, DOCX or text reader)
    returns [True] and leaves the processor and the observer as they were:
    the duplicate is found before the callback, the extraction and the
    chunker are reached. *)
Theorem process_document_idempotent (fuel : nat) (path : str)
    (cb : option (callback Observer)) (p p1 : processor Index)
    (w w1 : Observer) (bytes : list Byte.byte) :
  store_wf (db p) ->
  file_at L path = File bytes ->
  process_document L fuel path cb p w = Some (true, p1, w1) ->
  List.length
    (filter (fun d => str_eqb (d_file_hash d) (md5_hexdigest L bytes))
       (documents (db p1))) = 1%nat
  /\ forall (L' : libraries Index) (fuel' : nat) (path' : str)
            (cb' : option (callback Observer)),
       file_at L' path' = File bytes ->
       md5_hexdigest L' bytes = md5_hexdigest L bytes ->
       process_document L' fuel' path' cb' p1 w1 = Some (true, p1, w1).
Proof.
  intros W Ef H.
  pose proof (process_document_wf L _ _ _ _ _ _ _ _ W H) as W1.
  pose proof (process_document_true_known L _ _ _ _ _ _ _ _ Ef H) as K.
  split.
  - apply one_row_per_hash; [ apply W1 | exact K ].
  - intros L' fuel' path' cb' Ef' Eh.
    apply (process_document_known L' fuel' path' cb' p1 w1 bytes Ef').
    rewrite Eh. exact K.
Qed.


(** C7.  During [clear_knowledge_base] the committed database is either
    the one before the call or one with no document row and no chunk row;
    afterwards both tables are empty, [get_document_stats] reports zero
    documents and zero chunks, and no fingerprint is known.  So a call of
    [process_document] that returns [True] afterwards has created a
    document row (the only one, with the next row id) and its chunk rows;
    and a file that was ingested before the reset is ingested again after
    it, with the same chunks. *)
Theorem clear_knowledge_base_resets (p : processor Index) :
  let p' := clear_knowledge_base L p in
  Forall (fun c => committed c = db p
                   \/ (documents (committed c) = []
                       /\ chunks (committed c) = []))
    (clear_transaction (db p))
  /\ documents (db p') = [] /\ chunks (db p') = []
  /\ total_documents (get_document_stats p') = 0
  /\ total_chunks (get_document_stats p') = 0
  /\ (forall h, select_id_by_hash h (db p') = None)
  /\ (forall fuel path (cb : option (callback Observer)) w p2 w2,
        process_document L fuel path cb p' w = Some (true, p2, w2) ->
        exists bytes d,
          file_at L path = File bytes
          /\ documents (db p2) = [d]
          /\ d_file_hash d = md5_hexdigest L bytes
          /\ d_id d = seq_documents (db p) + 1
          /\ d_chunk_count d = len (chunks (db p2)))
  /\ (forall fuel path (cb : option (callback Observer)) p0
             (w0 w1 w : Observer) bytes,
        file_at L path = File bytes ->
        select_id_by_hash (md5_hexdigest L bytes) (db p0) = None ->
        process_document L fuel path cb p0 w0 = Some (true, p, w1) ->
        exists p2 cs,
          process_document L fuel path None p' w = Some (true, p2, w)
          /\ map c_content (chunks (db p))
             = map c_content (chunks (db p0)) ++ cs
          /\ map c_content (chunks (db p2)) = cs).
Proof.
  intros p'.
  assert (Hd : db p' = {| documents := []; chunks := [];
                          seq_documents := seq_documents (db p);
                          seq_chunks := seq_chunks (db p) |})
    by reflexivity.
  split; [ | split; [ | split; [ | split; [ | split; [ | split; [ | split ]]]]]].
  - unfold clear_transaction.
    repeat apply Forall_cons; try apply Forall_nil; cbn; auto.
  - rewrite Hd. reflexivity.
  - rewrite Hd. reflexivity.
  - unfold get_document_stats. cbn [total_documents]. rewrite Hd. reflexivity.
  - unfold get_document_stats. cbn [total_chunks]. rewrite Hd. reflexivity.
  - intros h. rewrite Hd. reflexivity.
  - intros fuel path cb w p2 w2 H.
    apply process_document_cases in H.
    destruct H as [ [H _] | [ (_ & _ & _ & bytes & id & _ & Es) | H ] ].
    + discriminate H.
    + rewrite Hd in Es. discriminate Es.
    + destruct H as (bytes & text & cs & id & tables & Ef & _ & _ & _ & _ & Hi & E & _).
      apply insert_document_spec in Hi.
      destruct Hi as (_ & Hid & Hdocs & Hchunks & _).
      rewrite Hd in Hid, Hdocs, Hchunks. cbn in Hid, Hdocs, Hchunks.
      exists bytes. eexists. split; [ exact Ef | ].
      rewrite E, insert_chunks_documents, Hdocs.
      split; [ reflexivity | ]. cbn. repeat split; [ lia | ].
      pose proof (insert_chunks_contents id 0 cs tables) as C.
      rewrite Hchunks in C. cbn in C.
      apply (f_equal (@List.length _)) in C. rewrite !length_map in C.
      unfold len. rewrite C. reflexivity.
  - intros fuel path cb p0 w0 w1 w bytes Ef Es H.
    apply process_document_cases in H.
    destruct H as [ [H _] | [ (_ & _ & _ & bytes' & id & Ef' & Es') | H ] ].
    + discriminate H.
    + rewrite Ef in Ef'. injection Ef' as <-. congruence.
    + destruct H as (bytes' & text & cs & id & tables & Ef' & _ & Ee & Et & Ec & Hi & E & _).
      rewrite Ef in Ef'. injection Ef' as <-.
      unfold process_document, calculate_file_hash. cbv beta zeta.
      cbn [notify close connect working committed execute commit].
      rewrite Ef, Hd. cbn [select_id_by_hash documents filter].
      rewrite Ee, Et. cbn [negb]. rewrite Ec.
      cbn [insert_document documents existsb].
      eexists. exists cs. split; [ reflexivity | ].
      cbn [db]. rewrite E, !insert_chunks_contents.
      apply insert_document_spec in Hi. destruct Hi as (_ & _ & _ & -> & _).
      split; reflexivity.
Qed.

End Claims.

Import Inputs.

Lemma process_document_idempotent_witness :
  process_document toy 0 (of_string "copy.TXT") (Some raising)
    one_document tt = Some (true, one_document, tt).
Proof.
  refine (proj2 (process_document_idempotent toy 1 (of_string "cats.txt")
                   None fresh one_document tt tt cats _ _ _)
            toy 0%nat (of_string "copy.TXT") (Some raising) _ _).
  - split; cbn; constructor.
  - vm_compute. reflexivity.
  - vm_compute. reflexivity.
  - vm_compute. reflexivity.
  - reflexivity.
Defined.



Lemma clear_knowledge_base_resets_witness :
  exists p2 cs,
    process_document toy 1 (of_string "cats.txt") None
      (clear_knowledge_base toy one_document) tt = Some (true, p2, tt)
    /\ map c_content (chunks (db one_document))
       = map c_content (chunks (db fresh)) ++ cs
    /\ map c_content (chunks (db p2)) = cs.
Proof.
  refine (proj2 (proj2 (proj2 (proj2 (proj2 (proj2 (proj2
            (clear_knowledge_base_resets (Observer := unit) toy one_document)))))))
            1%nat (of_string "cats.txt") None fresh tt tt tt cats _ _ _).
  - vm_compute. reflexivity.
  - vm_compute. reflexivity.
  - vm_compute. reflexivity.
Defined.

End IngestionFacts.

(** ** Retrieval *)

Module RetrievalFacts.
Import Py PyText Sqlite Processor SpecWords Vocabulary StoreFacts LikeFacts
  SplitFacts.

(** In a well-formed store the query gives one row for each matching
    chunk, in the order of the table. *)
Lemma select_like_wf (pattern : str) (n : Z) (tables : database) :
  store_wf tables ->
  select_like pattern n tables
  = limit n (map (row_of tables) (filter (matches pattern) (chunks tables))).
Proof.
  intros W. unfold select_like. f_equal.
  fold (matches pattern).
  rewrite order_by_id_ascending
    by (apply ascending_filter, W).
  assert (O : Forall (fun c => In (c_document_id c)
                                 (map d_id (documents tables)))
                (filter (matches pattern) (chunks tables))).
  { apply Forall_forall. intros c Hc. apply filter_In in Hc.
    exact (proj1 (Forall_forall _ _) (wf_owner _ W) c (proj1 Hc)). }
  induction O as [ | c cs Hc _ IH ]; cbn [flat_map map]; [ reflexivity | ].
  rewrite IH. destruct (join_one _ _ (wf_document_ids _ W) Hc) as (d & E & _).
  unfold row_of, owner_filename. rewrite E. reflexivity.
Qed.

Lemma keyword_results_scored (rows : list (str * str * Z)) :
  Forall scored_half (map keyword_result rows).
Proof.
  apply Forall_forall. intros r H. apply in_map_iff in H.
  destruct H as (row & <- & _). reflexivity.
Qed.

Lemma limit_length {A} (n : Z) (l : list A) : 0 <= n -> len (limit n l) <= n.
Proof.
  intros H. unfold limit, len.
  destruct (Z.ltb_spec n 0); [ lia | ].
  rewrite length_firstn. lia.
Qed.

Lemma filter_all {A} (f : A -> bool) (l : list A) :
  (forall x, f x = true) -> filter f l = l.
Proof.
  intros H. induction l as [ | x l IH ]; cbn; [ reflexivity | ].
  rewrite H, IH. reflexivity.
Qed.

Lemma search_pattern_blank (query : str) :
  forallb isspace query = true -> search_pattern query = of_string "%%".
Proof.
  intros H. unfold search_pattern.
  rewrite split_blank by (apply lower_blank, H). reflexivity.
Qed.

Lemma like_percent_percent (text : str) : like (of_string "%%") text = true.
Proof.
  apply like_percent. exists text, []. rewrite app_nil_r.
  split; [ reflexivity | apply like_percent_only ].
Qed.

Section WithLibraries.

Context {Index : Type}.
Variable L : libraries Index.

Lemma keyword_path_result (p : processor Index) (query : str) (n : Z)
    (partial : list result) :
  keyword_path L p query n partial ->
  search_knowledge L p query n
  = Ok (partial
        ++ map keyword_result (select_like (search_pattern query) n (db p))).
Proof.
  intros H. unfold search_knowledge, semantic_search, keyword_search.
  destruct H as [ -> | c e -> -> | c a partial e -> -> -> ]; reflexivity.
Qed.


(** C9.  With a collection whose query returns an answer in which
    ["documents"] is empty, or holds an empty first list, the result is
    the empty list whatever the tables hold; more generally, whenever the
    semantic attempt ends without raising, its entries are the result and
    the tables are not read. *)
Theorem search_knowledge_no_hits (collection : Index) (query : str) (n : Z) :
  (forall answer docs,
     collection_query L query n collection = Ok answer ->
     getitem_key answer (of_string "documents") = Ok docs ->
     (truth docs = false
      \/ exists first, getitem_index docs 0 = Ok first /\ truth first = false) ->
     forall tables,
       search_knowledge L {| db := tables; chroma := Some collection |} query n
       = Ok [])
  /\ (forall results,
        semantic_search L collection query n [] = (results, Ok tt) ->
        forall tables,
          search_knowledge L {| db := tables; chroma := Some collection |}
            query n
          = Ok results).
Proof.
  split.
  - intros answer docs Eq Ed H tables.
    unfold search_knowledge, semantic_search, semantic_results. cbn [chroma].
    rewrite Eq, Ed.
    destruct H as [ -> | (first & -> & Hf) ]; [ reflexivity | ].
    destruct (truth docs); [ rewrite Hf | ]; reflexivity.
  - intros results E tables. unfold search_knowledge. cbn [chroma].
    rewrite E. reflexivity.
Qed.



End WithLibraries.

Import Inputs.

Lemma store_wf_two_documents : store_wf (db two_documents).
Proof.
  unfold two_documents.
  destruct (process_document toy 1 (of_string "cats.txt") None fresh tt)
    as [ [ [b p] w ] | ] eqn:E1; [ | apply store_wf_setup ].
  assert (W0 : store_wf (db fresh)) by apply store_wf_setup.
  pose proof (IngestionFacts.process_document_wf toy _ _ _ _ _ _ _ _ W0 E1)
    as W1.
  destruct (process_document toy 1 (of_string "dogs.txt") None p tt)
    as [ [ [b' p'] w' ] | ] eqn:E2; [ | exact W1 ].
  exact (IngestionFacts.process_document_wf toy _ _ _ _ _ _ _ _ W1 E2).
Qed.

(** Entries appended before the answer turns out to be malformed stay in
    the result, in front of the keyword entries. *)
Example partial_entries_survive :
  search_knowledge (with_answer half_answer)
    {| db := db two_documents; chroma := Some tt |} (of_string "dogs") 5
  = Ok [ {| content := PStr (of_string "first");
            filename := PStr (of_string "a.txt");
            chunk_index := PInt 0;
            relevance_score := PInt 1 |};
         keyword_result (of_string "Dogs bark. ABC and more.",
                         of_string "dogs.txt", 0) ].
Proof. vm_compute. reflexivity. Qed.


Lemma search_knowledge_no_hits_witness :
  search_knowledge (with_answer no_hit)
    {| db := db two_documents; chroma := Some tt |} (of_string "cats") 5
  = Ok [].
Proof.
  apply (proj1 (search_knowledge_no_hits (with_answer no_hit) tt
                  (of_string "cats") 5) no_hit (PList [PList []])).
  - reflexivity.
  - reflexivity.
  - right. exists (PList []). split; reflexivity.
Defined.




End RetrievalFacts.

(** ** More about the chunker *)

Module ChunkerMore.
Import Py PyFacts Vocabulary MoreVocabulary Chunker ChunkerFacts.

(** *** [rfind] *)

Lemma rindex_range (c : ascii) (l : str) : -1 <= rindex c l < len l.
Proof.
  unfold len. induction l as [ | x l IH ]; cbn [rindex List.length].
  - lia.
  - destruct (Z.leb_spec 0 (rindex c l)); [ lia | ].
    destruct (Ascii.eqb x c); lia.
Qed.

Lemma rindex_found (c : ascii) (l : str) :
  0 <= rindex c l -> nth_error l (Z.to_nat (rindex c l)) = Some c.
Proof.
  induction l as [ | x l IH ]; cbn [rindex].
  - lia.
  - destruct (Z.leb_spec 0 (rindex c l)) as [ H | H ]; intros H0.
    + replace (Z.to_nat (rindex c l + 1)) with (S (Z.to_nat (rindex c l)))
        by lia.
      cbn. apply IH, H.
    + destruct (Ascii.eqb_spec x c) as [ -> | ]; [ reflexivity | lia ].
Qed.

Lemma rindex_last (c : ascii) (l : str) (i : nat) :
  nth_error l i = Some c -> Z.of_nat i <= rindex c l.
Proof.
  revert i. induction l as [ | x l IH ]; intros i H.
  - destruct i; discriminate H.
  - cbn [rindex]. destruct i as [ | i ]; cbn in H.
    + injection H as ->.
      destruct (Z.leb_spec 0 (rindex c l)); [ lia | ].
      rewrite Ascii.eqb_refl. lia.
    + specialize (IH i H).
      destruct (Z.leb_spec 0 (rindex c l)); lia.
Qed.

Lemma char_at_Some (s : str) (i : Z) (c : ascii) :
  char_at s i = Some c -> 0 <= i < len s.
Proof.
  unfold char_at, len. destruct (Z.ltb_spec i 0) as [ Hi | Hi ];
    [ discriminate | ].
  intros E. assert (N : nth_error s (Z.to_nat i) <> None) by congruence.
  apply nth_error_Some in N. lia.
Qed.

(** What [rfind] returns: -1, or an index inside the (adjusted) range
    that holds the character. *)
Lemma rfind_result (s : str) (c : ascii) (a b : Z) :
  rfind s c a b = -1
  \/ (adjust_index (len s) a <= rfind s c a b < adjust_index (len s) b
      /\ char_at s (rfind s c a b) = Some c).
Proof.
  unfold rfind. pose proof (rindex_range c (slice s a b)) as R.
  destruct (Z.ltb_spec (rindex c (slice s a b)) 0) as [ H | H ];
    [ left; reflexivity | right ].
  pose proof (rindex_found c (slice s a b) H) as F.
  pose proof (adjust_index_range (len s) a (len_nonneg s)) as Ra.
  unfold slice in *. set (lo := adjust_index (len s) a) in *.
  set (hi := adjust_index (len s) b) in *.
  set (r := rindex c _) in *.
  rewrite nth_error_firstn in F.
  destruct (Nat.ltb_spec (Z.to_nat r) (Z.to_nat (hi - lo))) as [ K | K ];
    [ | discriminate F ].
  rewrite nth_error_skipn in F.
  split; [ lia | ].
  unfold char_at. destruct (Z.ltb_spec (lo + r) 0); [ lia | ].
  replace (Z.to_nat (lo + r)) with (Z.to_nat lo + Z.to_nat r)%nat by lia.
  exact F.
Qed.

Lemma rfind_lower_bound (s : str) (c : ascii) (a b : Z) :
  -1 <= rfind s c a b.
Proof.
  destruct (rfind_result s c a b) as [ -> | [H _] ]; [ lia | ].
  pose proof (adjust_index_range (len s) a (len_nonneg s)). lia.
Qed.

(** [rfind] does not miss an occurrence inside the range. *)
Lemma rfind_last (s : str) (c : ascii) (a b i : Z) :
  0 <= a -> a <= i -> i < b -> b <= len s ->
  char_at s i = Some c -> i <= rfind s c a b.
Proof.
  intros Ha Hi Hb Hn H. unfold rfind.
  rewrite (adjust_index_inside (len s) a) by lia.
  assert (E : nth_error (slice s a b) (Z.to_nat (i - a)) = Some c).
  { rewrite slice_inside by lia. rewrite nth_error_firstn.
    destruct (Nat.ltb_spec (Z.to_nat (i - a)) (Z.to_nat (b - a))); [ | lia ].
    rewrite nth_error_skipn. unfold char_at in H.
    destruct (Z.ltb_spec i 0); [ lia | ].
    replace (Z.to_nat a + Z.to_nat (i - a))%nat with (Z.to_nat i) by lia.
    exact H. }
  apply rindex_last in E.
  destruct (Z.ltb_spec (rindex c (slice s a b)) 0); lia.
Qed.

(** *** The length of a slice and of a trimmed string *)

Lemma len_slice_le {A} (s : list A) (a b : Z) :
  len (slice s a b)
  <= Z.max 0 (adjust_index (len s) b - adjust_index (len s) a).
Proof.
  unfold slice, len. rewrite length_firstn. lia.
Qed.

Lemma lstrip_len (s : str) : len (lstrip s) <= len s.
Proof.
  destruct (lstrip_suffix s) as [w E].
  rewrite E at 2. rewrite len_app. pose proof (len_nonneg w). lia.
Qed.

Lemma strip_len (s : str) : len (strip s) <= len s.
Proof.
  unfold strip. destruct (rstrip_prefix (lstrip s)) as [w E].
  pose proof (lstrip_len s) as H. rewrite E in H. rewrite len_app in H.
  pose proof (len_nonneg w). lia.
Qed.

Lemma slice_substring {A} (s : list A) (a b : Z) :
  exists before after, s = before ++ slice s a b ++ after.
Proof.
  unfold slice.
  set (lo := Z.to_nat (adjust_index (len s) a)).
  set (k := Z.to_nat _).
  exists (firstn lo s), (skipn k (skipn lo s)).
  rewrite firstn_skipn, firstn_skipn. reflexivity.
Qed.

Lemma strip_substring (s : str) : substring_of (strip s) s.
Proof.
  unfold strip, substring_of.
  destruct (lstrip_suffix s) as [w1 E1].
  destruct (rstrip_prefix (lstrip s)) as [w2 E2].
  exists w1, w2. rewrite <- E2. exact E1.
Qed.

Lemma substring_trans (a b c : str) :
  substring_of a b -> substring_of b c -> substring_of a c.
Proof.
  intros (p1 & q1 & ->) (p2 & q2 & ->).
  exists (p2 ++ p1), (q1 ++ q2). rewrite <- !app_assoc. reflexivity.
Qed.

(** The window that one iteration cuts is never wider than [chunk_size]
    (the text being longer than that). *)
Lemma window_width (text : str) (cs s : Z) :
  0 <= cs < len text ->
  adjust_index (len text) (window_end text cs s)
  - adjust_index (len text) s <= cs.
Proof.
  intros Hc. unfold window_end.
  destruct (Z.ltb_spec (s + cs) (len text)) as [ Hin | Hout ].
  - set (last := Z.max _ _).
    assert (Hl : last = -1
                 \/ adjust_index (len text) s <= last
                    < adjust_index (len text) (s + cs)).
    { subst last.
      destruct (rfind_result text "." s (s + cs)) as [ E1 | [H1 _] ];
      destruct (rfind_result text "!" s (s + cs)) as [ E2 | [H2 _] ];
      destruct (rfind_result text "?" s (s + cs)) as [ E3 | [H3 _] ];
      rewrite ?E1, ?E2, ?E3; lia. }
    pose proof (adjust_index_range (len text) s (len_nonneg text)).
    pose proof (adjust_index_range (len text) (s + cs) (len_nonneg text)).
    destruct (Z.gtb_spec last s) as [ Hcut | Hraw ].
    + destruct Hl as [ -> | Hl ].
      * change (-1 + 1) with 0. unfold adjust_index at 1. cbn. lia.
      * rewrite (adjust_index_inside _ (last + 1)) by lia. revert H0 Hl.
        unfold adjust_index.
        destruct (Z.ltb_spec s 0), (Z.ltb_spec (s + cs) 0); lia.
    + unfold adjust_index.
      destruct (Z.ltb_spec s 0), (Z.ltb_spec (s + cs) 0); lia.
  - unfold adjust_index.
    destruct (Z.ltb_spec s 0), (Z.ltb_spec (s + cs) 0); lia.
Qed.

Lemma loop_body_fits (text : str) (cs ov : Z) (st : loop_state) :
  0 <= cs < len text ->
  Forall (fits cs text) (chunks st) ->
  Forall (fits cs text) (chunks (loop_body text cs ov st)).
Proof.
  intros Hc H. unfold loop_body. cbn [chunks].
  destruct (truthy _); [ | exact H ].
  apply Forall_app. split; [ exact H | ].
  constructor; [ | constructor ]. split.
  - pose proof (strip_len (slice text (start st) (window_end text cs (start st)))).
    pose proof (len_slice_le text (start st) (window_end text cs (start st))).
    pose proof (window_width text cs (start st) Hc). lia.
  - eapply substring_trans; [ apply strip_substring | ].
    apply slice_substring.
Qed.

Lemma iterate_fits (n : nat) (text : str) (cs ov : Z) (st : loop_state) :
  0 <= cs < len text ->
  Forall (fits cs text) (chunks st) ->
  Forall (fits cs text) (chunks (iterate n text cs ov st)).
Proof.
  intros Hc. revert st. induction n as [ | n IH ]; intros st H; cbn [iterate].
  - exact H.
  - apply IH, loop_body_fits; assumption.
Qed.

Lemma while_loop_fits (fuel : nat) (text : str) (cs ov : Z)
    (st : loop_state) (out : list str) :
  0 <= cs < len text ->
  Forall (fits cs text) (chunks st) ->
  while_loop fuel text cs ov st = Some out ->
  Forall (fits cs text) out.
Proof.
  intros Hc. revert st. induction fuel as [ | fuel IH ]; intros st H E;
    cbn in E; [ discriminate | ].
  destruct (start st <? len text).
  - eapply IH; [ | exact E ]. apply loop_body_fits; assumption.
  - injection E as <-. exact H.
Qed.

(** X1.  For [chunk_size >= 0], no chunk is longer than [chunk_size], and
    every chunk is a run of consecutive characters of the text: after any
    number of iterations of the loop, and in the list returned. *)
Theorem chunks_fit_and_come_from_the_text (text : str) (cs ov : Z) :
  0 <= cs ->
  (cs < len text ->
   forall n, Forall (fits cs text)
               (chunks (iterate n text cs ov init_state)))
  /\ (forall fuel out,
        chunk_text fuel text cs ov = Some out -> Forall (fits cs text) out).
Proof.
  intros Hc. split.
  - intros Hn n. apply iterate_fits; [ lia | constructor ].
  - intros fuel out E. unfold chunk_text in E.
    destruct (Z.leb_spec (len text) cs) as [ Hs | Hl ].
    + injection E as <-. constructor; [ | constructor ].
      split; [ exact Hs | ]. exists [], []. rewrite app_nil_r. reflexivity.
    + eapply while_loop_fits; [ | | exact E ]; [ lia | constructor ].
Qed.

Lemma chunks_fit_and_come_from_the_text_witness :
  Forall (fits 10 (of_string "One. Two! Three? Four."))
    [of_string "One. Two!"; of_string "o! Three?"; of_string "e? Four."].
Proof.
  refine (proj2 (chunks_fit_and_come_from_the_text
                   (of_string "One. Two! Three? Four.") 10 2 _) 5%nat _ _).
  - lia.
  - vm_compute. reflexivity.
Defined.

(** *** Where a window is cut *)

Lemma window_end_unfold (text : str) (cs s : Z) :
  window_end text cs s
  = if s + cs <? len text
    then if last_sentence text s (s + cs) >? s
         then last_sentence text s (s + cs) + 1
         else s + cs
    else s + cs.
Proof. reflexivity. Qed.

Lemma terminator_found (text : str) (c : ascii) (a b : Z) :
  is_terminator c -> rfind text c a b <> -1 ->
  terminator_at text (rfind text c a b).
Proof.
  intros Hc Hr. destruct (rfind_result text c a b) as [ E | [_ H] ];
    [ contradiction | ].
  exists c. split; assumption.
Qed.

(** [last_sentence] over a range inside the text: -1 or the position of
    a terminator in the range, and no terminator of the range lies after
    it. *)
Lemma last_sentence_spec (text : str) (a b : Z) :
  0 <= a -> a <= b -> b <= len text ->
  (last_sentence text a b = -1
   \/ (a <= last_sentence text a b < b
       /\ terminator_at text (last_sentence text a b)))
  /\ (forall i, a <= i < b -> terminator_at text i ->
                i <= last_sentence text a b).
Proof.
  intros Ha Hab Hb. unfold last_sentence.
  pose proof (rfind_result text "." a b) as R1.
  pose proof (rfind_result text "!" a b) as R2.
  pose proof (rfind_result text "?" a b) as R3.
  rewrite (adjust_index_inside (len text) a) in R1, R2, R3 by lia.
  rewrite (adjust_index_inside (len text) b) in R1, R2, R3 by lia.
  pose proof (rfind_lower_bound text "." a b) as B1.
  pose proof (rfind_lower_bound text "!" a b) as B2.
  pose proof (rfind_lower_bound text "?" a b) as B3.
  set (r1 := rfind text "." a b) in *.
  set (r2 := rfind text "!" a b) in *.
  set (r3 := rfind text "?" a b) in *.
  split.
  - destruct (Z.eq_dec (Z.max (Z.max r1 r2) r3) (-1)) as [ E | N ];
      [ left; exact E | right ].
    assert (Hm : Z.max (Z.max r1 r2) r3 = r1 \/ Z.max (Z.max r1 r2) r3 = r2
                 \/ Z.max (Z.max r1 r2) r3 = r3) by lia.
    destruct Hm as [ E | [ E | E ] ]; rewrite E in *.
    + destruct R1 as [ R | [R C] ]; [ contradiction | ].
      split; [ exact R | ]. exists "."%char. split; [ exact C | ].
      left. reflexivity.
    + destruct R2 as [ R | [R C] ]; [ contradiction | ].
      split; [ exact R | ]. exists "!"%char. split; [ exact C | ].
      right. left. reflexivity.
    + destruct R3 as [ R | [R C] ]; [ contradiction | ].
      split; [ exact R | ]. exists "?"%char. split; [ exact C | ].
      right. right. reflexivity.
  - intros i Hi (c & Hc & [ -> | [ -> | -> ] ]).
    + pose proof (rfind_last text "." a b i Ha (proj1 Hi) (proj2 Hi) Hb Hc).
      fold r1 in H. lia.
    + pose proof (rfind_last text "!" a b i Ha (proj1 Hi) (proj2 Hi) Hb Hc).
      fold r2 in H. lia.
    + pose proof (rfind_last text "?" a b i Ha (proj1 Hi) (proj2 Hi) Hb Hc).
      fold r3 in H. lia.
Qed.

Lemma last_sentence_unique (text : str) (a b k : Z) :
  0 <= a -> b <= len text -> a <= k < b ->
  terminator_at text k ->
  (forall i, k < i < b -> ~ terminator_at text i) ->
  last_sentence text a b = k.
Proof.
  intros Ha Hb Hk Ht Hn.
  destruct (last_sentence_spec text a b Ha ltac:(lia) Hb) as [ S1 S2 ].
  pose proof (S2 k Hk Ht) as Hle.
  destruct S1 as [ E | [R T] ]; [ lia | ].
  destruct (Z.eq_dec (last_sentence text a b) k) as [ E | N ];
    [ exact E | ].
  exfalso. apply (Hn (last_sentence text a b)); [ lia | exact T ].
Qed.

Lemma window_end_cases (text : str) (cs s : Z) :
  0 <= s -> 0 <= cs -> s + cs < len text ->
  let e := window_end text cs s in
  (e = s + cs /\ forall i, s < i < s + cs -> ~ terminator_at text i)
  \/ (s < e - 1 < s + cs
      /\ terminator_at text (e - 1)
      /\ forall i, e <= i < s + cs -> ~ terminator_at text i).
Proof.
  intros Hs Hc Hn e. subst e. rewrite window_end_unfold.
  replace (s + cs <? len text) with true by (symmetry; apply Z.ltb_lt; lia).
  destruct (last_sentence_spec text s (s + cs)) as [ S1 S2 ]; [ lia .. | ].
  destruct (Z.gtb_spec (last_sentence text s (s + cs)) s) as [ Hcut | Hraw ].
  - right. destruct S1 as [ E | [R T] ]; [ lia | ].
    replace (last_sentence text s (s + cs) + 1 - 1)
      with (last_sentence text s (s + cs)) by lia.
    repeat split; [ lia | lia | exact T | ].
    intros i Hi Ht. specialize (S2 i ltac:(lia) Ht). lia.
  - left. split; [ reflexivity | ].
    intros i Hi Ht. specialize (S2 i ltac:(lia) Ht). lia.
Qed.

(** X2.  A window that lies inside the text ([0 <= start] and
    [start + chunk_size < len(text)]) ends at its raw edge exactly when no
    terminator lies strictly after [start] in it; otherwise it ends just
    after the last terminator of the window. *)
Theorem window_ends_after_last_terminator (text : str) (cs s : Z) :
  0 <= s -> 0 <= cs -> s + cs < len text ->
  let e := window_end text cs s in
  (e = s + cs /\ forall i, s < i < s + cs -> ~ terminator_at text i)
  \/ (s < e - 1 < s + cs
      /\ terminator_at text (e - 1)
      /\ forall i, e <= i < s + cs -> ~ terminator_at text i).
Proof. apply window_end_cases. Qed.

Lemma window_ends_after_last_terminator_witness :
  terminator_at (of_string "One. Two! Three? Four.")
    (window_end (of_string "One. Two! Three? Four.") 10 0 - 1).
Proof.
  destruct (window_ends_after_last_terminator
              (of_string "One. Two! Three? Four.") 10 0
              ltac:(lia) ltac:(lia) ltac:(vm_compute; reflexivity))
    as [ [E _] | (_ & T & _) ].
  - vm_compute in E. discriminate E.
  - exact T.
Defined.

(** *** When the loop ends and when it does not *)

Lemma start_loop_body (text : str) (cs ov : Z) (st : loop_state) :
  start (loop_body text cs ov st) = window_end text cs (start st) - ov.
Proof. reflexivity. Qed.

(** A window that leaves [start] where it was is cut again and again. *)
Lemma same_start_never_returns (fuel : nat) (text : str) (cs ov : Z)
    (st : loop_state) :
  start st < len text ->
  window_end text cs (start st) - ov = start st ->
  while_loop fuel text cs ov st = None.
Proof.
  revert st. induction fuel as [ | fuel IH ]; intros st Hlt E;
    [ reflexivity | ].
  rewrite while_loop_step by exact Hlt.
  apply IH; rewrite start_loop_body, E; assumption.
Qed.

(** From a [start] below -1 the search range is empty, -1 counts as a
    sentence end after [start], and the window ends at 0. *)
Lemma window_end_negative (text : str) (cs s : Z) :
  0 <= cs < len text -> - cs <= s < -1 -> window_end text cs s = 0.
Proof.
  intros Hc Hs. rewrite window_end_unfold.
  replace (s + cs <? len text) with true by (symmetry; apply Z.ltb_lt; lia).
  assert (E : last_sentence text s (s + cs) = -1).
  { unfold last_sentence.
    assert (R : forall c, rfind text c s (s + cs) = -1).
    { intros c. destruct (rfind_result text c s (s + cs)) as [ E | [H _] ];
        [ exact E | ].
      exfalso. revert H. unfold adjust_index.
      destruct (Z.ltb_spec s 0), (Z.ltb_spec (s + cs) 0); lia. }
    rewrite !R. reflexivity. }
  rewrite E. destruct (Z.gtb_spec (-1) s); [ reflexivity | lia ].
Qed.

Lemma negative_start_never_returns (fuel : nat) (text : str) (cs ov : Z)
    (st : loop_state) :
  cs < len text -> 2 <= ov <= cs -> - cs <= start st < -1 ->
  while_loop fuel text cs ov st = None.
Proof.
  intros Hc Ho Hs. destruct fuel as [ | fuel ]; [ reflexivity | ].
  rewrite while_loop_step by lia.
  apply same_start_never_returns;
    rewrite start_loop_body, (window_end_negative text cs (start st)) by lia.
  - lia.
  - rewrite window_end_negative by lia. reflexivity.
Qed.

Lemma no_progress_never_returns (fuel : nat) (text : str) (cs ov : Z)
    (st : loop_state) :
  cs < len text -> 2 <= ov <= cs ->
  0 <= start st -> start st + cs < len text ->
  window_end text cs (start st) - ov <= start st ->
  window_end text cs (start st) - ov <> -1 ->
  while_loop fuel text cs ov st = None.
Proof.
  intros Hc Ho Hs Hn Hle Hne.
  destruct (Z.eq_dec (window_end text cs (start st) - ov) (start st))
    as [ E | N ];
    [ apply same_start_never_returns; [ lia | exact E ] | ].
  destruct fuel as [ | fuel ]; [ reflexivity | ].
  rewrite while_loop_step by lia.
  destruct (window_end_cases text cs (start st))
    as [ [E _] | (Hk & Tk & Nk) ]; [ lia .. | | ].
  { lia. }
  set (e := window_end text cs (start st)) in *.
  destruct (Z.lt_ge_cases (e - ov) 0) as [ Hneg | Hpos ].
  - apply negative_start_never_returns; rewrite ?start_loop_body; fold e; lia.
  - apply same_start_never_returns; rewrite start_loop_body; fold e;
      [ lia | ].
    rewrite window_end_unfold.
    replace (e - ov + cs <? len text) with true
      by (symmetry; apply Z.ltb_lt; lia).
    rewrite (last_sentence_unique text (e - ov) (e - ov + cs) (e - 1));
      [ | lia | lia | lia | exact Tk | intros i Hi; apply Nk; lia ].
    destruct (Z.gtb_spec (e - 1) (e - ov)); lia.
Qed.

(** X3.  With [2 <= overlap <= chunk_size]: when a window inside the text
    is cut so short that the next [start] is not beyond the current one
    (and is not -1), the loop never ends.  In particular [chunk_text] never
    returns when the first window of a long text is cut at [end <= overlap]
    with [end <> overlap - 1]. *)
Theorem short_cut_never_returns (text : str) (cs ov : Z) :
  cs < len text -> 2 <= ov <= cs ->
  (forall st,
     0 <= start st -> start st + cs < len text ->
     window_end text cs (start st) - ov <= start st ->
     window_end text cs (start st) - ov <> -1 ->
     forall fuel, while_loop fuel text cs ov st = None)
  /\ (window_end text cs 0 <= ov ->
      window_end text cs 0 <> ov - 1 ->
      forall fuel, chunk_text fuel text cs ov = None).
Proof.
  intros Hc Ho. split.
  - intros st Hs Hn Hle Hne fuel.
    apply no_progress_never_returns; assumption.
  - intros Hle Hne fuel. unfold chunk_text.
    replace (len text <=? cs) with false by (symmetry; apply Z.leb_gt; lia).
    apply no_progress_never_returns; cbn [start]; lia.
Qed.

Lemma short_cut_never_returns_witness :
  chunk_text 100 (of_string "Hi. This text has no other full stop") 20 10
  = None.
Proof.
  refine (proj2 (short_cut_never_returns
                   (of_string "Hi. This text has no other full stop") 20 10
                   _ _) _ _ 100%nat).
  - vm_compute. reflexivity.
  - lia.
  - vm_compute. discriminate.
  - vm_compute. discriminate.
Defined.

(** The loop ends when every window takes [start] forward. *)
Lemma while_loop_advancing (fuel : nat) (text : str) (cs ov : Z)
    (st : loop_state) :
  (forall s, 0 <= s < len text -> s < window_end text cs s - ov) ->
  0 <= start st ->
  (Z.to_nat (len text - start st) < fuel)%nat ->
  exists out, while_loop fuel text cs ov st = Some out.
Proof.
  intros Ha. revert st.
  induction fuel as [ | fuel IH ]; intros st Hs Hf; [ lia | ].
  destruct (Z.lt_ge_cases (start st) (len text)) as [ Hlt | Hge ].
  - rewrite while_loop_step by exact Hlt.
    pose proof (Ha (start st) ltac:(lia)) as H.
    apply IH; rewrite start_loop_body; lia.
  - rewrite while_loop_exit by exact Hge. eauto.
Qed.

Lemma window_end_at_least (text : str) (cs s : Z) :
  window_end text cs s = s + cs \/ s + 2 <= window_end text cs s.
Proof.
  rewrite window_end_unfold.
  destruct (s + cs <? len text); [ | left; reflexivity ].
  destruct (Z.gtb_spec (last_sentence text s (s + cs)) s);
    [ right; lia | left; reflexivity ].
Qed.

(** X4.  [chunk_text] returns, within [len(text)] iterations, whenever
    every window that starts inside the text takes [start] forward, that
    is [end - overlap > start]. *)
Theorem chunk_text_returns_when_windows_advance (text : str) (cs ov : Z) :
  (forall s, 0 <= s < len text -> s < window_end text cs s - ov) ->
  exists out, chunk_text (S (Z.to_nat (len text))) text cs ov = Some out.
Proof.
  intros Ha. unfold chunk_text.
  destruct (len text <=? cs); [ eauto | ].
  apply while_loop_advancing; cbn [start]; try assumption; lia.
Qed.

Lemma chunk_text_returns_when_windows_advance_witness :
  exists out,
    chunk_text (S (Z.to_nat (len (of_string "abcdef")))) (of_string "abcdef")
      4 1 = Some out.
Proof.
  apply chunk_text_returns_when_windows_advance.
  intros s Hs.
  destruct (window_end_at_least (of_string "abcdef") 4 s); lia.
Defined.

(** X5.  With [overlap <= 1] and [overlap < chunk_size], [chunk_text]
    returns for every text: a window is at least two characters wide
    when it is cut after a terminator, and [chunk_size] wide otherwise. *)
Theorem chunk_text_returns_for_small_overlap (text : str) (cs ov : Z) :
  ov <= 1 -> ov < cs ->
  exists out, chunk_text (S (Z.to_nat (len text))) text cs ov = Some out.
Proof.
  intros H1 H2. unfold chunk_text.
  destruct (len text <=? cs); [ eauto | ].
  apply while_loop_advancing; cbn [start]; try lia.
  intros s Hs. destruct (window_end_at_least text cs s); lia.
Qed.

Lemma chunk_text_returns_for_small_overlap_witness :
  exists out,
    chunk_text (S (Z.to_nat (len Inputs.stuck_text))) Inputs.stuck_text
      1000 1 = Some out.
Proof.
  apply chunk_text_returns_for_small_overlap; lia.
Defined.

End ChunkerMore.

(** ** More about ingestion and statistics *)

Module IngestionMore.
Import Py PyText Sqlite Processor Vocabulary MoreVocabulary PyFacts StoreFacts
  IngestionFacts.

(** *** Rows *)

Lemma insert_chunks_rows (id i : Z) (cs : list str) (tables : database) :
  chunks (insert_chunks id i cs tables)
  = chunks tables ++ rows_from (seq_chunks tables) id i cs.
Proof.
  revert i tables. induction cs as [ | c cs IH ]; intros i tables; cbn.
  - rewrite app_nil_r. reflexivity.
  - rewrite IH. cbn. rewrite <- app_assoc. reflexivity.
Qed.

Lemma rows_from_contents (seq id i : Z) (cs : list str) :
  map c_content (rows_from seq id i cs) = cs.
Proof.
  revert seq i. induction cs as [ | c cs IH ]; intros seq i; cbn;
    [ reflexivity | ].
  rewrite IH. reflexivity.
Qed.

Lemma rows_from_owner (seq id i : Z) (cs : list str) :
  Forall (fun c => c_document_id c = id) (rows_from seq id i cs).
Proof.
  revert seq i. induction cs as [ | c cs IH ]; intros seq i; cbn;
    constructor; [ reflexivity | apply IH ].
Qed.

Lemma rows_from_indices (seq id i : Z) (cs : list str) :
  map c_chunk_index (rows_from seq id i cs)
  = map (fun k => i + Z.of_nat k) (List.seq 0 (List.length cs)).
Proof.
  revert seq i. induction cs as [ | c cs IH ]; intros seq i; cbn;
    [ reflexivity | ].
  rewrite IH. f_equal; [ lia | ].
  rewrite <- seq_shift, map_map. apply map_ext. intros k. lia.
Qed.

Lemma len_rows_from (seq id i : Z) (cs : list str) :
  len (rows_from seq id i cs) = len cs.
Proof.
  unfold len. rewrite <- (length_map c_content), rows_from_contents.
  reflexivity.
Qed.

(** *** A trimmed, non-empty text gives at least one chunk *)

Lemma lstrip_keeps_nonspace (s : str) (c : ascii) :
  In c s -> isspace c = false -> lstrip s <> [].
Proof.
  induction s as [ | x s IH ]; cbn; intros Hin Hc; [ contradiction | ].
  destruct (isspace x) eqn:E; [ | discriminate ].
  destruct Hin as [ -> | Hin ]; [ congruence | ]. apply IH; assumption.
Qed.

Lemma strip_keeps_head (x : ascii) (s : str) :
  isspace x = false -> strip (x :: s) <> [].
Proof.
  intros Hx. unfold strip. cbn [lstrip]. rewrite Hx. unfold rstrip.
  intros E. apply (f_equal (@rev ascii)) in E. rewrite rev_involutive in E.
  cbn in E. revert E. apply (lstrip_keeps_nonspace _ x); [ | exact Hx ].
  apply in_or_app. right. left. reflexivity.
Qed.

Lemma while_loop_extends (fuel : nat) (text : str) (cs ov : Z)
    (st : Chunker.loop_state) (out : list str) :
  Chunker.while_loop fuel text cs ov st = Some out ->
  exists more, out = Chunker.chunks st ++ more.
Proof.
  revert st. induction fuel as [ | fuel IH ]; intros st E; cbn in E;
    [ discriminate | ].
  destruct (Chunker.start st <? len text).
  - apply IH in E. destruct E as [more ->].
    unfold Chunker.loop_body. cbn [Chunker.chunks].
    destruct (truthy _); [ | eauto ].
    rewrite <- app_assoc. eauto.
  - injection E as <-. exists []. rewrite app_nil_r. reflexivity.
Qed.

Lemma chunk_text_not_empty (fuel : nat) (text : str) (cs ov : Z)
    (out : list str) :
  1 <= cs -> trimmed_nonempty text ->
  Chunker.chunk_text fuel text cs ov = Some out -> out <> [].
Proof.
  intros Hc [Hne Ht] E. unfold Chunker.chunk_text in E.
  destruct (Z.leb_spec (len text) cs) as [ Hs | Hl ];
    [ injection E as <-; discriminate | ].
  destruct fuel as [ | fuel ]; [ discriminate E | ].
  cbn [Chunker.while_loop Chunker.start] in E.
  replace (0 <? len text) with true in E by (symmetry; apply Z.ltb_lt; lia).
  apply while_loop_extends in E. destruct E as [more ->].
  unfold Chunker.loop_body. cbn [Chunker.chunks Chunker.start app].
  assert (Hh : head_ok text).
  { rewrite <- Ht. unfold strip. apply rstrip_head_ok, lstrip_head_ok. }
  destruct text as [ | x text ]; [ congruence | ]. cbn in Hh.
  set (e := Chunker.window_end (x :: text) cs 0).
  assert (He : 1 <= e).
  { subst e. unfold Chunker.window_end.
    destruct (0 + cs <? len (x :: text)); [ | lia ].
    destruct (Z.gtb_spec
                (Z.max (Z.max (rfind (x :: text) "." 0 (0 + cs))
                          (rfind (x :: text) "!" 0 (0 + cs)))
                   (rfind (x :: text) "?" 0 (0 + cs))) 0); lia. }
  assert (Hs : exists rest, slice (x :: text) 0 e = x :: rest).
  { unfold slice.
    rewrite (adjust_index_inside _ 0) by (pose proof (len_nonneg (x :: text)); lia).
    cbn [Z.to_nat skipn].
    assert (1 <= adjust_index (len (x :: text)) e).
    { unfold adjust_index. destruct (Z.ltb_spec e 0); lia. }
    destruct (Z.to_nat (adjust_index (len (x :: text)) e - 0)) eqn:K;
      [ lia | ].
    cbn. eauto. }
  destruct Hs as [rest ->].
  destruct (truthy (strip (x :: rest))) eqn:T.
  - intros X. destruct (strip (x :: rest)); discriminate X.
  - exfalso. apply (strip_keeps_head x rest Hh).
    destruct (strip (x :: rest)); [ reflexivity | discriminate T ].
Qed.

Section WithLibraries.

Context {Index Observer : Type}.
Variable L : libraries Index.

(** What the three readers give is trimmed. *)
Lemma extract_text_trimmed (ext : str) (bytes : list Byte.byte) (text : str) :
  extract_text L ext bytes = Some (Ok text) -> strip text = text.
Proof.
  unfold extract_text, extract_text_from_pdf, extract_text_from_docx,
    extract_text_from_txt, bind.
  destruct (str_eqb ext _).
  { destruct (pdf_pages L bytes); intros E; [ | discriminate E ].
    injection E as <-. apply strip_idempotent. }
  destruct (str_eqb ext _).
  { destruct (docx_paragraphs L bytes); intros E; [ | discriminate E ].
    injection E as <-. apply strip_idempotent. }
  destruct (str_eqb ext _); [ | discriminate ].
  destruct (read_utf8 L bytes); intros E; injection E as <-;
    apply strip_idempotent.
Qed.


Lemma stored_rows (fuel : nat) (path : str)
    (cb : option (callback Observer)) (p p' : processor Index)
    (w w' : Observer) (bytes : list Byte.byte) :
  file_at L path = File bytes ->
  select_id_by_hash (md5_hexdigest L bytes) (db p) = None ->
  process_document L fuel path cb p w = Some (true, p', w') ->
  exists text cs,
    extract_text L (lower (suffix L path)) bytes = Some (Ok text)
    /\ Chunker.chunk_text fuel text Chunker.default_chunk_size
         Chunker.default_overlap = Some cs
    /\ documents (db p')
       = documents (db p)
         ++ [ {| d_id := seq_documents (db p) + 1;
                 d_filename := basename L path;
                 d_file_hash := md5_hexdigest L bytes;
                 d_file_type := lower (suffix L path);
                 d_chunk_count := len cs |} ]
    /\ chunks (db p')
       = chunks (db p)
         ++ rows_from (seq_chunks (db p)) (seq_documents (db p) + 1) 0 cs
    /\ total_documents (get_document_stats p')
       = total_documents (get_document_stats p) + 1
    /\ total_chunks (get_document_stats p')
       = total_chunks (get_document_stats p) + len cs.
Proof.
  intros Ef Es H. apply process_document_cases in H.
  destruct H as [ [H _] | [ (_ & _ & _ & bytes' & id & Ef' & Es') | H ] ].
  - discriminate H.
  - rewrite Ef in Ef'. injection Ef' as <-. congruence.
  - destruct H as (bytes' & text & cs & id & tables & Ef' & _ & Ee & _ & Ec & Hi & E & _).
    rewrite Ef in Ef'. injection Ef' as <-.
    apply insert_document_spec in Hi.
    destruct Hi as (_ & -> & Hd & Hc & _ & Hs).
    exists text, cs.
    assert (D : documents (db p') = documents (db p) ++
                  [ {| d_id := seq_documents (db p) + 1;
                       d_filename := basename L path;
                       d_file_hash := md5_hexdigest L bytes;
                       d_file_type := lower (suffix L path);
                       d_chunk_count := len cs |} ])
      by (rewrite E, insert_chunks_documents; exact Hd).
    assert (C : chunks (db p') = chunks (db p) ++
                  rows_from (seq_chunks (db p)) (seq_documents (db p) + 1) 0 cs)
      by (rewrite E, insert_chunks_rows, Hc, Hs; reflexivity).
    repeat split; try assumption.
    + unfold get_document_stats. cbn [total_documents].
      rewrite D, len_app. reflexivity.
    + unfold get_document_stats. cbn [total_chunks].
      rewrite C, len_app, len_rows_from. reflexivity.
Qed.

(** X7.  A call that returns [True] on a file whose fingerprint was not in
    the table has appended one document row (file name, fingerprint,
    lower-cased extension, number of chunks; the next row id) and one chunk
    row for each chunk of the extracted text, with the indices 0, 1, ... in
    order; the statistics grow by one document and that many chunks. *)
Theorem new_document_is_stored (fuel : nat) (path : str)
    (cb : option (callback Observer)) (p p' : processor Index)
    (w w' : Observer) (bytes : list Byte.byte) :
  file_at L path = File bytes ->
  select_id_by_hash (md5_hexdigest L bytes) (db p) = None ->
  process_document L fuel path cb p w = Some (true, p', w') ->
  exists text cs,
    extract_text L (lower (suffix L path)) bytes = Some (Ok text)
    /\ Chunker.chunk_text fuel text Chunker.default_chunk_size
         Chunker.default_overlap = Some cs
    /\ documents (db p')
       = documents (db p)
         ++ [ {| d_id := seq_documents (db p) + 1;
                 d_filename := basename L path;
                 d_file_hash := md5_hexdigest L bytes;
                 d_file_type := lower (suffix L path);
                 d_chunk_count := len cs |} ]
    /\ chunks (db p')
       = chunks (db p)
         ++ rows_from (seq_chunks (db p)) (seq_documents (db p) + 1) 0 cs
    /\ total_documents (get_document_stats p')
       = total_documents (get_document_stats p) + 1
    /\ total_chunks (get_document_stats p')
       = total_chunks (get_document_stats p) + len cs.
Proof. apply stored_rows. Qed.

End WithLibraries.

Import Inputs.


Lemma new_document_is_stored_witness :
  exists text cs,
    extract_text toy (lower (suffix toy (of_string "dogs.txt")))
      (list_byte_of_string "Dogs bark. ABC and more.") = Some (Ok text)
    /\ Chunker.chunk_text 1 text Chunker.default_chunk_size
         Chunker.default_overlap = Some cs
    /\ documents (db two_documents)
       = documents (db one_document)
         ++ [ {| d_id := seq_documents (db one_document) + 1;
                 d_filename := basename toy (of_string "dogs.txt");
                 d_file_hash :=
                   md5_hexdigest toy
                     (list_byte_of_string "Dogs bark. ABC and more.");
                 d_file_type := lower (suffix toy (of_string "dogs.txt"));
                 d_chunk_count := len cs |} ]
    /\ chunks (db two_documents)
       = chunks (db one_document)
         ++ rows_from (seq_chunks (db one_document))
              (seq_documents (db one_document) + 1) 0 cs
    /\ total_documents (get_document_stats two_documents)
       = total_documents (get_document_stats one_document) + 1
    /\ total_chunks (get_document_stats two_documents)
       = total_chunks (get_document_stats one_document) + len cs.
Proof.
  apply (new_document_is_stored toy 1 (of_string "dogs.txt") None
           one_document two_documents tt tt).
  - vm_compute. reflexivity.
  - vm_compute. reflexivity.
  - vm_compute. reflexivity.
Defined.

(** *** Invariants of the tables *)

Lemma chunk_text_trimmed (fuel : nat) (text : str) (cs ov : Z)
    (out : list str) :
  trimmed_nonempty text ->
  Chunker.chunk_text fuel text cs ov = Some out ->
  Forall trimmed_nonempty out.
Proof.
  intros Ht E. unfold Chunker.chunk_text in E.
  destruct (len text <=? cs).
  - injection E as <-. constructor; [ exact Ht | constructor ].
  - eapply ChunkerFacts.while_loop_trimmed; [ | exact E ]. constructor.
Qed.

Lemma filter_none {A} (f : A -> bool) (l : list A) :
  Forall (fun x => f x = false) l -> filter f l = [].
Proof.
  induction 1 as [ | x l Hx _ IH ]; cbn; [ reflexivity | ].
  rewrite Hx. exact IH.
Qed.

Lemma filter_every {A} (f : A -> bool) (l : list A) :
  Forall (fun x => f x = true) l -> filter f l = l.
Proof.
  induction 1 as [ | x l Hx _ IH ]; cbn; [ reflexivity | ].
  rewrite Hx, IH. reflexivity.
Qed.

Section Invariants.

Context {Index Observer : Type}.
Variable L : libraries Index.

(** What a stored document was cut from. *)
Lemma stored_text_trimmed (ext : str) (bytes : list Byte.byte) (text : str) :
  extract_text L ext bytes = Some (Ok text) ->
  truthy (strip text) = true ->
  trimmed_nonempty text.
Proof.
  intros Ee Et. pose proof (extract_text_trimmed L _ _ _ Ee) as E.
  split; [ | exact E ].
  rewrite E in Et. apply truthy_true. exact Et.
Qed.

(** X8.  The tables stay well formed: unique row ids and fingerprints,
    ids within the AUTOINCREMENT counters, chunk rows in ascending id
    order, every chunk owned by an existing document.  This holds of a new
    database and is kept by every call of [process_document] and of
    [clear_knowledge_base]. *)
Theorem tables_stay_well_formed :
  store_wf (setup_database None)
  /\ (forall fuel path (cb : option (callback Observer)) p p' w w' b,
        store_wf (db p) ->
        process_document L fuel path cb p w = Some (b, p', w') ->
        store_wf (db p'))
  /\ (forall p : processor Index, store_wf (db (clear_knowledge_base L p))).
Proof.
  split; [ apply store_wf_setup | split ].
  - intros fuel path cb p p' w w' b W H.
    apply process_document_cases in H.
    destruct H as [ [_ ->] | [ (_ & -> & _) | H ] ]; [ exact W .. | ].
    destruct H as (bytes & text & cs & id & tables & _ & _ & _ & _ & _ & Hi & -> & _).
    apply insert_chunks_wf.
    + eapply insert_document_wf; eassumption.
    + apply insert_document_spec in Hi.
      destruct Hi as (_ & _ & -> & _). rewrite map_app. apply in_or_app.
      right. left. reflexivity.
  - intros p. split; cbn; constructor.
Qed.

(** X9.  Every stored chunk is non-empty and free of leading and trailing
    whitespace: true of a new database, and kept by [process_document]
    and [clear_knowledge_base]. *)
Theorem stored_chunks_stay_trimmed :
  contents_trimmed (setup_database None)
  /\ (forall fuel path (cb : option (callback Observer)) p p' w w' b,
        contents_trimmed (db p) ->
        process_document L fuel path cb p w = Some (b, p', w') ->
        contents_trimmed (db p'))
  /\ (forall p : processor Index,
        contents_trimmed (db (clear_knowledge_base L p))).
Proof.
  split; [ constructor | split ].
  - intros fuel path cb p p' w w' b W H.
    apply process_document_cases in H.
    destruct H as [ [_ ->] | [ (_ & -> & _) | H ] ]; [ exact W .. | ].
    destruct H as (bytes & text & cs & id & tables & _ & _ & Ee & Et & Ec & Hi & -> & _).
    unfold contents_trimmed. rewrite insert_chunks_contents.
    apply insert_document_spec in Hi. destruct Hi as (_ & _ & _ & -> & _).
    apply Forall_app. split; [ exact W | ].
    eapply chunk_text_trimmed; [ | exact Ec ].
    eapply stored_text_trimmed; eassumption.
  - intros p. constructor.
Qed.

(** X10.  Every document has [chunk_count >= 1], and its chunk rows carry
    exactly the indices 0 .. chunk_count - 1 in table order: true of a new
    database, and kept by [process_document] (from well-formed tables) and
    [clear_knowledge_base]. *)
Theorem chunk_counts_stay_exact :
  counts_match (setup_database None)
  /\ (forall fuel path (cb : option (callback Observer)) p p' w w' b,
        store_wf (db p) -> counts_match (db p) ->
        process_document L fuel path cb p w = Some (b, p', w') ->
        counts_match (db p'))
  /\ (forall p : processor Index,
        counts_match (db (clear_knowledge_base L p))).
Proof.
  split; [ constructor | split ].
  - intros fuel path cb p p' w w' b W M H.
    apply process_document_cases in H.
    destruct H as [ [_ ->] | [ (_ & -> & _) | H ] ]; [ exact M .. | ].
    destruct H as (bytes & text & cs & id & tables & _ & _ & Ee & Et & Ec & Hi & E & _).
    apply insert_document_spec in Hi.
    destruct Hi as (_ & -> & Hd & Hc & _ & Hs).
    assert (D : documents (db p') = documents (db p) ++
                  [ {| d_id := seq_documents (db p) + 1;
                       d_filename := basename L path;
                       d_file_hash := md5_hexdigest L bytes;
                       d_file_type := lower (suffix L path);
                       d_chunk_count := len cs |} ])
      by (rewrite E, insert_chunks_documents; exact Hd).
    assert (C : chunks (db p') = chunks (db p) ++
                  rows_from (seq_chunks (db p)) (seq_documents (db p) + 1) 0 cs)
      by (rewrite E, insert_chunks_rows, Hc, Hs; reflexivity).
    unfold counts_match, chunks_of_document. rewrite D, C.
    apply Forall_app. split.
    + apply Forall_forall. intros d Hd'.
      pose proof (proj1 (Forall_forall _ _) M d Hd') as [M1 M2].
      pose proof (proj1 (Forall_forall _ _) (wf_document_seq _ W) d Hd') as B.
      cbn in B. split; [ exact M1 | ].
      rewrite filter_app, (filter_none _ (rows_from _ _ _ _)), app_nil_r;
        [ exact M2 | ].
      eapply Forall_impl; [ | apply rows_from_owner ].
      cbn. intros c ->. apply Z.eqb_neq. lia.
    + constructor; [ | constructor ]. cbn [d_id d_chunk_count]. split.
      * assert (cs <> []).
        { eapply chunk_text_not_empty; [ | | exact Ec ].
          - unfold Chunker.default_chunk_size. lia.
          - eapply stored_text_trimmed; eassumption. }
        unfold len. destruct cs; [ congruence | cbn; lia ].
      * rewrite filter_app, (filter_none _ (chunks (db p))).
        -- rewrite filter_every.
           ++ cbn [app]. rewrite rows_from_indices. unfold range, len.
              rewrite Nat2Z.id. apply map_ext. intros k. lia.
           ++ eapply Forall_impl; [ | apply rows_from_owner ].
              cbn. intros c ->. apply Z.eqb_refl.
        -- apply Forall_forall. intros c Hc'.
           pose proof (proj1 (Forall_forall _ _) (wf_owner _ W) c Hc') as O.
           apply in_map_iff in O. destruct O as (d & Ed & Hd').
           pose proof (proj1 (Forall_forall _ _) (wf_document_seq _ W) d Hd')
             as B.
           cbn in B. apply Z.eqb_neq. lia.
  - intros p. constructor.
Qed.

(** *** Statistics *)

Lemma count_for_bump (t k : str) (d : list (str * Z)) :
  count_for t (bump k d)
  = count_for t d + (if str_eqb k t then 1 else 0).
Proof.
  induction d as [ | [k' n] d IH ]; cbn.
  - destruct (str_eqb k t); reflexivity.
  - destruct (str_eqb k' k) eqn:E; cbn.
    + apply str_eqb_eq in E. subst k'.
      destruct (str_eqb k t); lia.
    + destruct (str_eqb k' t) eqn:E'; [ | exact IH ].
      apply str_eqb_eq in E'. subst k'.
      destruct (str_eqb k t) eqn:K; [ | lia ].
      apply str_eqb_eq in K. subst k. rewrite str_eqb_refl in E.
      discriminate E.
Qed.

Lemma keys_bump (k : str) (d : list (str * Z)) :
  NoDup (map fst d) -> NoDup (map fst (bump k d))
  /\ (forall x, In x (map fst (bump k d)) <-> x = k \/ In x (map fst d)).
Proof.
  induction d as [ | [k' n] d IH ]; cbn [bump map fst]; intros N.
  - split; [ repeat constructor; intros [] | ].
    intros x. cbn. intuition congruence.
  - inversion N as [ | y l Hy N' ]; subst.
    destruct (str_eqb k' k) eqn:E; cbn [map fst].
    + apply str_eqb_eq in E. subst k'.
      split; [ exact N | ]. intros x. cbn. intuition congruence.
    + destruct (IH N') as [N1 I1]. split.
      * constructor; [ | exact N1 ].
        intros Hin. apply I1 in Hin. destruct Hin as [ -> | Hin ].
        -- rewrite str_eqb_refl in E. discriminate E.
        -- contradiction.
      * intros x. cbn. rewrite I1. intuition congruence.
Qed.

Lemma sum_counts_bump (k : str) (d : list (str * Z)) :
  sum_counts (bump k d) = sum_counts d + 1.
Proof.
  unfold sum_counts. induction d as [ | [k' n] d IH ]; cbn; [ lia | ].
  destruct (str_eqb k' k); cbn; lia.
Qed.

Lemma group_counts_fold (docs : list document_row) (acc : list (str * Z)) :
  NoDup (map fst acc) ->
  let d := fold_left (fun acc d => bump (d_file_type d) acc) docs acc in
  NoDup (map fst d)
  /\ (forall t,
        count_for t d
        = count_for t acc
          + len (filter (fun x => str_eqb (d_file_type x) t) docs))
  /\ sum_counts d = sum_counts acc + len docs.
Proof.
  revert acc. induction docs as [ | x docs IH ]; intros acc N;
    cbn [fold_left filter].
  - repeat split; [ exact N | intros t | ];
      change (len (@nil document_row)) with 0; lia.
  - destruct (IH (bump (d_file_type x) acc) (proj1 (keys_bump _ _ N)))
      as (N' & C & S).
    repeat split; [ exact N' | | ].
    + intros t. rewrite C, count_for_bump.
      destruct (str_eqb (d_file_type x) t); unfold len; cbn [List.length]; lia.
    + rewrite S, sum_counts_bump. unfold len. cbn [List.length]. lia.
Qed.

(** X11.  [get_document_stats] counts the rows of the two tables; in
    [file_types] every file type occurs once, its count is the number of
    documents of that type (0 for a type that is not a key), and the counts
    add up to [total_documents]. *)
Theorem document_stats_are_accurate (p : processor Index) :
  let st := get_document_stats p in
  total_documents st = len (documents (db p))
  /\ total_chunks st = len (chunks (db p))
  /\ NoDup (map fst (file_types st))
  /\ (forall t,
        count_for t (file_types st)
        = len (filter (fun d => str_eqb (d_file_type d) t)
                 (documents (db p))))
  /\ sum_counts (file_types st) = total_documents st.
Proof.
  intros st. subst st. unfold get_document_stats.
  cbn [total_documents total_chunks file_types]. unfold group_counts.
  destruct (group_counts_fold (documents (db p)) []) as (N & C & S);
    [ constructor | ].
  repeat split; [ exact N | | exact S ].
  intros t. rewrite (C t). reflexivity.
Qed.

End Invariants.

Lemma tables_stay_well_formed_witness : store_wf (db one_document).
Proof.
  refine (proj1 (proj2 (tables_stay_well_formed (Observer := unit) toy))
            1%nat (of_string "cats.txt") None fresh one_document tt tt true
            _ _).
  - split; cbn; constructor.
  - vm_compute. reflexivity.
Defined.

Lemma stored_chunks_stay_trimmed_witness : contents_trimmed (db one_document).
Proof.
  refine (proj1 (proj2 (stored_chunks_stay_trimmed (Observer := unit) toy))
            1%nat (of_string "cats.txt") None fresh one_document tt tt true
            _ _).
  - constructor.
  - vm_compute. reflexivity.
Defined.

Lemma chunk_counts_stay_exact_witness : counts_match (db one_document).
Proof.
  refine (proj1 (proj2 (chunk_counts_stay_exact (Observer := unit) toy))
            1%nat (of_string "cats.txt") None fresh one_document tt tt true
            _ _ _).
  - split; cbn; constructor.
  - constructor.
  - vm_compute. reflexivity.
Defined.

End IngestionMore.

(** ** More about retrieval *)

Module RetrievalMore.
Import Py PyText Sqlite Processor SpecWords Vocabulary MoreVocabulary PyFacts
  StoreFacts LikeFacts SplitFacts IngestionFacts IngestionMore RetrievalFacts.

Lemma limit_subset {A} (n : Z) (l : list A) (x : A) :
  In x (limit n l) -> In x l.
Proof.
  unfold limit. destruct (n <? 0); [ auto | ].
  intros H. rewrite <- (firstn_skipn (Z.to_nat n) l).
  apply in_or_app. left. exact H.
Qed.

Lemma limit_all {A} (n : Z) (l : list A) :
  n < 0 \/ len l <= n -> limit n l = l.
Proof.
  unfold limit, len. intros [ H | H ].
  - replace (n <? 0) with true by (symmetry; apply Z.ltb_lt; lia).
    reflexivity.
  - destruct (n <? 0); [ reflexivity | ]. apply firstn_all2. lia.
Qed.

Lemma len_filter_le {A} (f : A -> bool) (l : list A) :
  len (filter f l) <= len l.
Proof.
  unfold len. induction l as [ | x l IH ]; cbn; [ lia | ].
  destruct (f x); cbn; lia.
Qed.

(** A query without wildcards matches a chunk exactly when its tokens
    occur in sequence in the content as LOWER gives it. *)
Lemma matches_tokens (query : str) (c : chunk_row) :
  no_wildcard query ->
  matches (search_pattern query) c = true
  <-> tokens_in_sequence (split (lower query)) (sql_lower (c_content c)).
Proof.
  intros Hq. unfold matches.
  change (search_pattern query) with (pattern_of (split (lower query))).
  rewrite like_pattern_of by (apply tokens_literal, Hq).
  apply like_in_sequence_folded;
    [ apply tokens_folded | apply folded_sql_lower ].
Qed.

Lemma rows_from_nth (seq id i0 : Z) (cs : list str) (i : nat) (chunk : str) :
  nth_error cs i = Some chunk ->
  In {| c_id := seq + 1 + Z.of_nat i; c_document_id := id;
        c_chunk_index := i0 + Z.of_nat i; c_content := chunk |}
    (rows_from seq id i0 cs).
Proof.
  revert seq i0 i. induction cs as [ | c cs IH ]; intros seq i0 i H.
  - destruct i; discriminate H.
  - destruct i as [ | i ]; cbn in H |- *.
    + injection H as ->. left. f_equal; lia.
    + right. specialize (IH (seq + 1) (i0 + 1) i H).
      replace (seq + 1 + Z.pos (Pos.of_succ_nat i))
        with (seq + 1 + 1 + Z.of_nat i) by lia.
      replace (i0 + Z.pos (Pos.of_succ_nat i))
        with (i0 + 1 + Z.of_nat i) by lia.
      exact IH.
Qed.

Section WithLibraries.

Context {Index Observer : Type}.
Variable L : libraries Index.



(** *** The semantic path on a well-formed answer *)

Lemma getitem_key_dict (v : pyval) (k : str) (x : pyval) :
  getitem_key v k = Ok x ->
  exists d, v = PDict d /\ dict_lookup d k = Some x.
Proof.
  destruct v; cbn; try discriminate.
  destruct (dict_lookup d k) eqn:E; [ | discriminate ].
  intros H. injection H as ->. eauto.
Qed.

Lemma seq_index_app {A} (pre : list A) (x : A) (post : list A) :
  seq_index (pre ++ x :: post) (len pre) = Ok x.
Proof.
  unfold seq_index, len.
  destruct (Z.ltb_spec (Z.of_nat (List.length pre)) 0); [ lia | ].
  rewrite length_app. cbn [List.length].
  replace (0 <=? Z.of_nat (List.length pre)) with true
    by (symmetry; apply Z.leb_le; lia).
  replace (Z.of_nat (List.length pre)
           <? Z.of_nat (List.length pre + S (List.length post))) with true
    by (symmetry; apply Z.ltb_lt; lia).
  cbn [andb]. rewrite Nat2Z.id, nth_error_app2 by lia.
  rewrite Nat.sub_diag. reflexivity.
Qed.

Lemma getitem_index_singleton (x : pyval) :
  getitem_index (PList [x]) 0 = Ok x.
Proof. reflexivity. Qed.

Lemma seq_index_at {A} (pre : list A) (x : A) (post : list A) (i : Z) :
  i = len pre -> seq_index (pre ++ x :: post) i = Ok x.
Proof. intros ->. apply seq_index_app. Qed.

Lemma semantic_loop_well_formed (answer : pyval)
    (all_metas all_distances : list pyval) :
  getitem_key answer (of_string "metadatas") = Ok (PList [PList all_metas]) ->
  getitem_key answer (of_string "distances")
    = Ok (PList [PList all_distances]) ->
  forall docs metas distances mp dp results,
    all_metas = mp ++ map PDict metas ->
    all_distances = dp ++ map PFloat distances ->
    List.length dp = List.length mp ->
    List.length metas = List.length docs ->
    List.length distances = List.length docs ->
    semantic_loop answer (len mp) docs results
    = (results ++ semantic_results_of docs metas distances, Ok tt).
Proof.
  intros Em Ed.
  destruct (getitem_key_dict _ _ _ Ed) as (dict & -> & Ld).
  induction docs as [ | doc docs IH ];
    intros metas distances mp dp results Hm Hd Hl Lm Ldist.
  - cbn. rewrite app_nil_r. reflexivity.
  - destruct metas as [ | m metas ]; [ discriminate Lm | ].
    destruct distances as [ | d distances ]; [ discriminate Ldist | ].
    cbn [semantic_loop semantic_results_of]. unfold semantic_entry.
    rewrite Em. cbn [bind]. rewrite getitem_index_singleton.
    cbn [bind getitem_index]. rewrite Hm. cbn [map].
    rewrite seq_index_app. cbn [bind contains].
    rewrite Ld. cbn [bind getitem_key]. rewrite Ld.
    cbn [bind]. rewrite getitem_index_singleton.
    cbn [bind getitem_index]. rewrite Hd. cbn [map].
    rewrite (seq_index_at dp (PFloat d) (map PFloat distances) (len mp))
      by (unfold len; rewrite Hl; reflexivity).
    cbn [bind get one_minus].
    specialize (IH metas distances (mp ++ [PDict m]) (dp ++ [PFloat d])
                  (results ++ [semantic_result doc m d])).
    replace (len (mp ++ [PDict m])) with (len mp + 1) in IH
      by (unfold len; rewrite length_app; cbn; lia).
    unfold semantic_result in *.
    rewrite IH.
    + rewrite <- app_assoc. reflexivity.
    + rewrite Hm, <- app_assoc. reflexivity.
    + rewrite Hd, <- app_assoc. reflexivity.
    + rewrite !length_app, Hl. reflexivity.
    + cbn in Lm. lia.
    + cbn in Ldist. lia.
Qed.

(** X14.  When the collection answers with a list of documents, a
    dictionary of metadata for each and a float distance for each, the
    result is one entry per document, in the order of the answer, with the
    document as content, the file name and chunk index of its metadata
    ("Unknown" and 0 when missing) and the score [1 - distance]; the tables
    are not read. *)
Theorem semantic_answer_is_returned (collection : Index) (query : str)
    (n : Z) (answer : pyval) (docs : list pyval)
    (metas : list (list (str * pyval))) (distances : list float) :
  collection_query L query n collection = Ok answer ->
  getitem_key answer (of_string "documents") = Ok (PList [PList docs]) ->
  getitem_key answer (of_string "metadatas")
    = Ok (PList [PList (map PDict metas)]) ->
  getitem_key answer (of_string "distances")
    = Ok (PList [PList (map PFloat distances)]) ->
  List.length metas = List.length docs ->
  List.length distances = List.length docs ->
  forall tables,
    search_knowledge L {| db := tables; chroma := Some collection |} query n
    = Ok (semantic_results_of docs metas distances)
    /\ List.length (semantic_results_of docs metas distances)
       = List.length docs.
Proof.
  intros Eq Edoc Em Ed Lm Ldist tables. split.
  - unfold search_knowledge, semantic_search, semantic_results.
    cbn [chroma]. rewrite Eq, Edoc. cbn [truth truthy].
    rewrite getitem_index_singleton. cbn [truth iterate_over].
    destruct docs as [ | doc docs ]; [ reflexivity | ].
    cbn [truthy].
    pose proof (semantic_loop_well_formed answer _ _ Em Ed (doc :: docs)
                  metas distances [] [] [] eq_refl eq_refl eq_refl Lm Ldist)
      as H.
    change (len (@nil pyval)) with 0 in H. rewrite H. reflexivity.
  - clear Eq Edoc Em Ed. revert metas distances Lm Ldist.
    induction docs as [ | doc docs IH ]; intros [ | m metas ] [ | d ds ] Lm Ld;
      try discriminate; cbn; [ reflexivity | ].
    f_equal. apply IH; cbn in *; lia.
Qed.

End WithLibraries.

Import Inputs.



Lemma semantic_answer_is_returned_witness :
  search_knowledge (with_answer full_answer)
    {| db := db two_documents; chroma := Some tt |} (of_string "x") 5
  = Ok [ {| content := PStr (of_string "first");
            filename := PStr (of_string "a.txt");
            chunk_index := PInt 3;
            relevance_score := PFloat 0.75 |};
         {| content := PStr (of_string "second");
            filename := PStr (of_string "Unknown");
            chunk_index := PInt 0;
            relevance_score := PFloat (-0.5) |} ].
Proof.
  refine (proj1 (semantic_answer_is_returned (with_answer full_answer) tt
                   (of_string "x") 5 full_answer
                   [PStr (of_string "first"); PStr (of_string "second")]
                   [ [(of_string "filename", PStr (of_string "a.txt"));
                      (of_string "chunk_index", PInt 3)];
                     [] ]
                   [0.25%float; 1.5%float] _ _ _ _ _ _ (db two_documents)));
    reflexivity.
Defined.

End RetrievalMore.

(** ** The answer composer *)

Module LlmFacts.
Import Py PyText Sqlite Processor Llm Vocabulary MoreVocabulary PyFacts.

Section WithServices.

Context {Index : Type}.
Variable S : services Index.

Lemma search_knowledge_ok (p : processor Index) (query : str) (n : Z) :
  exists results, search_knowledge (libs S) p query n = Ok results.
Proof.
  unfold search_knowledge.
  destruct (chroma p) as [ c | ]; [ | eexists; reflexivity ].
  destruct (semantic_search (libs S) c query n []) as [ results [ [] | e ] ];
    eexists; reflexivity.
Qed.

Lemma join_not_empty (sep x : str) (rest : list str) :
  x <> [] -> join sep (x :: rest) <> [].
Proof.
  intros Hx. cbn [join]. destruct rest; [ exact Hx | ].
  destruct x; [ congruence | discriminate ].
Qed.

(** The context is empty exactly when the search is not asked for or
    finds nothing. *)
Lemma relevant_context_truthy (llm : local_llm Index) (prompt : str)
    (use_context : bool) :
  exists ctx,
    relevant_context_of S llm prompt use_context = Ok ctx
    /\ (truthy ctx = true
        <-> use_context = true
            /\ exists results,
                 search_knowledge (libs S) (document_processor llm) prompt 5
                 = Ok results
                 /\ results <> []).
Proof.
  unfold relevant_context_of. destruct use_context.
  - destruct (search_knowledge_ok (document_processor llm) prompt 5)
      as [ results E ].
    rewrite E. cbn [bind]. destruct results as [ | r results ]; cbn [truthy].
    + exists []. split; [ reflexivity | ]. cbn. split; [ discriminate | ].
      intros (_ & results & E' & N). congruence.
    + eexists. split; [ reflexivity | ]. split.
      * intros _. split; [ reflexivity | ].
        exists (r :: results). split; [ reflexivity | discriminate ].
      * intros _. apply truthy_true. cbn [firstn map].
        apply join_not_empty. discriminate.
  - exists []. split; [ reflexivity | ]. cbn. split; [ discriminate | ].
    intros [H _]. discriminate H.
Qed.

Ltac unchanged :=
  cbn [fst snd model_name base_url document_processor conversation_history];
  repeat split; left; split;
  [ reflexivity | first [ left; reflexivity | right; reflexivity ] ].

(** X15.  [generate_response] always returns a string and never touches
    the model name, the server address or the knowledge base.  Either the
    history is unchanged and the string is one of the two fixed apologies,
    or exactly one turn was appended, holding the prompt and the returned
    answer, which is trimmed. *)
Theorem generate_response_outcome (llm : local_llm Index)
    (prompt context : str) (use_context : bool) :
  let r := generate_response S llm prompt context use_context in
  model_name (snd r) = model_name llm
  /\ base_url (snd r) = base_url llm
  /\ document_processor (snd r) = document_processor llm
  /\ ((conversation_history (snd r) = conversation_history llm
       /\ (fst r = generation_failed \/ fst r = processing_failed))
      \/ (exists used,
            conversation_history (snd r)
            = conversation_history llm ++ [turn_of prompt (fst r) used]
            /\ strip (fst r) = fst r)).
Proof.
  cbv zeta. unfold generate_response, generate.
  destruct (relevant_context_of S llm prompt use_context) as [ ctx | e ];
    cbn [bind]; [ | unchanged ].
  destruct (http_post S _ _) as [ response | e ]; cbn [bind];
    [ | unchanged ].
  destruct (status_code response =? 200); [ | unchanged ].
  destruct (json response) as [ result | e ]; cbn [bind]; [ | unchanged ].
  destruct (get result _ _) as [ text | e ]; cbn [bind]; [ | unchanged ].
  destruct text; cbn [strip_value bind]; try unchanged.
  cbn [fst snd model_name base_url document_processor conversation_history].
  repeat split. right. eexists. split; [ reflexivity | ].
  apply strip_idempotent.
Qed.


(** X17.  In the turn that a successful call appends, [context_used] is
    true exactly when the search was asked for and returned at least one
    result. *)
Theorem context_used_means_results (llm : local_llm Index)
    (prompt context : str) (use_context : bool) (t : turn) :
  conversation_history
    (snd (generate_response S llm prompt context use_context))
  = conversation_history llm ++ [t] ->
  (context_used t = true
   <-> use_context = true
       /\ exists results,
            search_knowledge (libs S) (document_processor llm) prompt 5
            = Ok results
            /\ results <> []).
Proof.
  destruct (relevant_context_truthy llm prompt use_context) as (ctx & E & T).
  unfold generate_response, generate. rewrite E. cbn [bind].
  assert (Same : conversation_history llm
                 = conversation_history llm ++ [t] -> False).
  { intros X. apply (f_equal (@List.length _)) in X.
    rewrite length_app in X. cbn in X. lia. }
  destruct (http_post S _ _) as [ response | e ]; cbn [bind];
    [ | intros X; destruct (Same X) ].
  destruct (status_code response =? 200);
    [ | intros X; destruct (Same X) ].
  destruct (json response) as [ result | e ]; cbn [bind];
    [ | intros X; destruct (Same X) ].
  destruct (get result _ _) as [ text | e ]; cbn [bind];
    [ | intros X; destruct (Same X) ].
  destruct text; cbn [strip_value bind];
    try (intros X; destruct (Same X)).
  cbn [snd conversation_history]. intros X.
  apply app_inv_head in X. injection X as <-. exact T.
Qed.

End WithServices.

Import Inputs LlmInputs.


Lemma context_used_means_results_witness :
  true = true
  <-> true = true
      /\ exists results,
           search_knowledge (libs answering)
             (document_processor (assistant_with two_documents))
             (of_string "cats") 5 = Ok results
           /\ results <> [].
Proof.
  apply (context_used_means_results answering (assistant_with two_documents)
           (of_string "cats") [] true
           (turn_of (of_string "cats") (of_string "Cats purr.") true)).
  vm_compute. reflexivity.
Defined.

End LlmFacts.
